(** * Medical Helper: hazard screening, text extraction, prompt assembly
      and summary rendering of [medical_app.py]

    The development embeds the Python module function by function.  Python
    [str] values are sequences of Unicode code points; effects (Streamlit
    output, the temporary file, the generator call, [st.stop()]) are made
    explicit in a small state-and-exception monad over a [world]. *)

From Stdlib Require Import PeanoNat NArith List String Ascii Bool Lia.
Import ListNotations.
Local Open Scope N_scope.

(** ** Python strings *)

Definition codepoint := N.
Definition str := list codepoint.

(** An ASCII literal of the source as a Python [str]. *)
Definition lit (s : string) : str :=
  map N_of_ascii (list_ascii_of_string s).

Definition str_eqb (a b : str) : bool :=
  if list_eq_dec N.eq_dec a b then true else false.

(** ["sep".join(parts)] *)
Fixpoint join (sep : str) (parts : list str) : str :=
  match parts with
  | [] => []
  | [p] => p
  | p :: rest => p ++ sep ++ join sep rest
  end.

(** [needle in hay] *)
Definition occurs_in (needle hay : str) : Prop :=
  exists before after, hay = before ++ needle ++ after.

(** ** The Unicode character database

    [str.lower], [str.isspace] and the regular-expression classes [\s] and
    [\w] consult the interpreter's Unicode tables.  Their ASCII part is
    written out below; the part above U+007F is a parameter of the
    development.  Lower-casing a non-ASCII code point may yield several code
    points and may look at its context (final sigma), so [uni_lower] receives
    the text before and after the code point. *)

Class UnicodeData := {
  uni_isspace : codepoint -> bool;
  uni_isalnum : codepoint -> bool;
  uni_lower : str -> codepoint -> str -> str
}.

Definition in_range (lo hi c : N) : bool := (lo <=? c) && (c <=? hi).

Definition is_ascii (c : codepoint) : bool := c <? 128.

(** ASCII white space for [str]: TAB LF VT FF CR, FS GS RS US, SPACE. *)
Definition ascii_isspace (c : codepoint) : bool :=
  in_range 9 13 c || in_range 28 31 c || (c =? 32).

(** ASCII word characters: [0-9A-Za-z_]. *)
Definition ascii_isword (c : codepoint) : bool :=
  in_range 48 57 c || in_range 65 90 c || in_range 97 122 c || (c =? 95).

Definition ascii_lower (c : codepoint) : codepoint :=
  if in_range 65 90 c then c + 32 else c.

Section Text.
Context {U : UnicodeData}.

(** [c.isspace()], also the class [\s] of a [str] pattern. *)
Definition isspace (c : codepoint) : bool :=
  if is_ascii c then ascii_isspace c else uni_isspace c.

(** The class [\w] of a [str] pattern. *)
Definition isword (c : codepoint) : bool :=
  if is_ascii c then ascii_isword c else uni_isalnum c.

Fixpoint lower_from (before s : str) : str :=
  match s with
  | [] => []
  | c :: after =>
      (if is_ascii c then [ascii_lower c] else uni_lower before c after)
        ++ lower_from (before ++ [c]) after
  end.

(** [s.lower()] *)
Definition lower (s : str) : str := lower_from [] s.

(** ** The fragment of [re] the module uses for searching

    The hazard patterns are built from literal characters, [\b] and [\s*]. *)

Inductive re_item :=
| Chr (c : codepoint)
| WordBoundary
| SpaceStar.

Definition regex := list re_item.

(** [re.compile] on that fragment (raw-string pattern text). *)
Fixpoint re_compile (p : string) : regex :=
  match p with
  | String "\" (String "b" r) => WordBoundary :: re_compile r
  | String "\" (String "s" (String "*" r)) => SpaceStar :: re_compile r
  | String c r => Chr (N_of_ascii c) :: re_compile r
  | EmptyString => []
  end.

Definition isword_at (c : option codepoint) : bool :=
  match c with Some x => isword x | None => false end.

(** [\b]: exactly one side of the position is a word character; the two
    ends of the text count as non-word. *)
Definition at_boundary (prev next : option codepoint) : bool :=
  xorb (isword_at prev) (isword_at next).

(** Backtracking match of [p] at a position: [prev] is the character just
    before the position, [s] the text from the position on. *)
Fixpoint match_here (p : regex) (prev : option codepoint) (s : str) : bool :=
  match p with
  | [] => true
  | Chr c :: p' =>
      match s with
      | x :: s' => (x =? c) && match_here p' (Some x) s'
      | [] => false
      end
  | WordBoundary :: p' =>
      at_boundary prev (hd_error s) && match_here p' prev s
  | SpaceStar :: p' =>
      (fix star (prev : option codepoint) (s : str) {struct s} : bool :=
         match s with
         | x :: s' =>
             if isspace x
             then star (Some x) s' || match_here p' prev s
             else match_here p' prev s
         | [] => match_here p' prev s
         end) prev s
  end.

Fixpoint search_from (p : regex) (prev : option codepoint) (s : str) : bool :=
  match_here p prev s ||
  match s with
  | x :: s' => search_from p (Some x) s'
  | [] => false
  end.

(** [bool(re.search(pattern, text))] *)
Definition re_search (pattern : string) (text : str) : bool :=
  search_from (re_compile pattern) None text.

End Text.

(** ** Effects: the world, exceptions and [st.stop()] *)

(** The text of an exception, [str(e)]. *)
Definition exn := str.

(** What the [FPDF] object has been asked to draw. *)
Inductive pdf_op :=
| AddPage
| SetFont (family style : str) (size : N)
| Cell (w h : N) (txt : str) (border ln : N) (align : str)
| Ln (h : N)
| MultiCell (w h : N) (txt : str).

Inductive content :=
| Bytes (data : list N)
| PdfDocument (ops : list pdf_op).

(** Output calls, in the order the script issues them. *)
Inductive effect :=
| StTitle (s : str)
| StSidebarHeader (s : str)
| StWarning (s : str)
| StError (s : str)
| StSuccess (s : str)
| StTextArea (label value : str)
| StSpinner (s : str)
| StMarkdown (s : str)
| StSubheader (s : str)
| StCaption (s : str)
| StPdfPreview (pdf : content)
| StDownloadButton (label : str) (data : content) (file_name mime : str)
| GenerateContent (model prompt : str).

Record world := mkWorld {
  files : list (str * content);
  screen : list effect
}.

Inductive outcome (A : Type) :=
| Return (a : A)
| Raise (e : exn)
| ScriptStop.
Arguments Return {A} a.
Arguments Raise {A} e.
Arguments ScriptStop {A}.

(** Computations over a state [S]: the [world], or the world paired with the
    local variables of the running function. *)
Definition M (S A : Type) := S -> outcome A * S.
Definition E (A : Type) := M world A.

Definition ret {S A} (a : A) : M S A := fun s => (Return a, s).

Definition bind {S A B} (m : M S A) (k : A -> M S B) : M S B :=
  fun s =>
    match m s with
    | (Return a, s') => k a s'
    | (Raise e, s') => (Raise e, s')
    | (ScriptStop, s') => (ScriptStop, s')
    end.

Notation "x <- m ;; k" := (bind m (fun x => k))
  (at level 61, m at next level, right associativity).
Notation "m ;; k" := (bind m (fun _ => k))
  (at level 61, right associativity).

Definition raise {S A} (e : exn) : M S A := fun s => (Raise e, s).

(** [try: m  except Exception as e: h e] -- [st.stop()] is not an
    [Exception] and passes through. *)
Definition try_except {S A} (m : M S A) (h : exn -> M S A) : M S A :=
  fun s =>
    match m s with
    | (Raise e, s') => h e s'
    | r => r
    end.

(** [try: m  finally: f] *)
Definition try_finally {S A} (m : M S A) (f : M S unit) : M S A :=
  fun s =>
    let (r, s') := m s in
    match f s' with
    | (Return _, s'') => (r, s'')
    | (Raise e, s'') => (Raise e, s'')
    | (ScriptStop, s'') => (ScriptStop, s'')
    end.

(** A function body with local variables [L], initially [init]. *)
Definition with_locals {L A} (init : L) (m : M (world * L) A) : E A :=
  fun w => let '(r, (w', _)) := m (w, init) in (r, w').

Definition lift {L A} (m : E A) : M (world * L) A :=
  fun s => let (r, w') := m (fst s) in (r, (w', snd s)).

Definition get_local {L} : M (world * L) L := fun s => (Return (snd s), s).
Definition set_local {L} (l : L) : M (world * L) unit :=
  fun s => (Return tt, (fst s, l)).

Definition emit (e : effect) : E unit :=
  fun w => (Return tt, mkWorld (files w) (screen w ++ [e])).

Definition st_title s := emit (StTitle s).
Definition st_sidebar_header s := emit (StSidebarHeader s).
Definition st_warning s := emit (StWarning s).
Definition st_error s := emit (StError s).
Definition st_success s := emit (StSuccess s).
Definition st_text_area label value := emit (StTextArea label value).
Definition st_spinner s := emit (StSpinner s).
Definition st_markdown s := emit (StMarkdown s).
Definition st_subheader s := emit (StSubheader s).
Definition st_caption s := emit (StCaption s).
Definition st_stop {A} : E A := fun w => (ScriptStop, w).

(** *** Files *)

Definition lookup_file (p : str) (fs : list (str * content)) : option content :=
  match find (fun e => str_eqb (fst e) p) fs with
  | Some e => Some (snd e)
  | None => None
  end.

Definition remove_file (p : str) (fs : list (str * content)) :=
  filter (fun e => negb (str_eqb (fst e) p)) fs.

Definition os_path_exists (p : str) : E bool :=
  fun w => (Return (match lookup_file p (files w) with Some _ => true | None => false end), w).

Definition write_file (p : str) (c : content) : E unit :=
  fun w => (Return tt, mkWorld ((p, c) :: remove_file p (files w)) (screen w)).

Definition read_file (p : str) : E content :=
  fun w =>
    match lookup_file p (files w) with
    | Some c => (Return c, w)
    | None => (Raise (lit "[Errno 2] No such file or directory"), w)
    end.

(** ** External collaborators

    The operating system's faults and the libraries the module calls
    ([tempfile], [PyPDF2], [docx], the UTF-8 codec, the generative model,
    [FPDF.output]).  Each may raise; what they answer is a parameter. *)

Class Environment := {
  (** [tempfile.NamedTemporaryFile(delete=False)]: raises, or creates a file
      and gives its name. *)
  tmp_create : exn + str;
  (** Storing the upload in the temporary file failing (a full disk, a
      quota): [tmp.write(data)] raises, or, when [tmp_write_deferred] holds,
      the flush does when the [with] block closes the file. *)
  tmp_write_error : list N -> option exn;
  (** Whether that failure shows only on closing: the data fitted into
      the write buffer, so [tmp.write(data)] itself returned. *)
  tmp_write_deferred : list N -> bool;
  (** How many bytes had reached the file when the failure occurred. *)
  tmp_written : list N -> nat;
  (** [os.unlink(path)] raising. *)
  os_unlink_error : str -> option exn;
  (** [[page.extract_text() for page in PdfReader(f).pages]] *)
  PdfReader_pages : content -> exn + list str;
  (** [[para.text for para in Document(path).paragraphs]] *)
  Document_paragraphs : content -> exn + list str;
  (** [data.decode("utf-8")] *)
  decode_utf8 : list N -> exn + str;
  (** [model.generate_content(prompt, stream=True)]: raises at the call, or
      yields the texts of its chunks and then possibly raises. *)
  generate_stream : str -> exn + (list str * option exn);
  (** The exception a core font raises for text outside Latin-1. *)
  fpdf_encoding_error : str -> exn;
  (** [pdf.output(filename)] raising, for a file name that is not empty. *)
  fpdf_output_error : str -> option exn
}.

Definition of_sum {S A} (r : exn + A) : M S A :=
  match r with inl e => raise e | inr a => ret a end.

Definition raise_if {S} (r : option exn) : M S unit :=
  match r with Some e => raise e | None => ret tt end.

Record UploadedFile := mkUpload {
  file_type : str;
  getvalue : list N
}.

Section App.
Context {U : UnicodeData} {Env : Environment}.

(** ** File text extraction *)

Definition LF : codepoint := 10.
Definition SPACE : codepoint := 32.

(** [re.sub(r'(?<!\n)\n(?!\n)', ' ', s)]: a line break with no line break
    on either side (in the text being searched) becomes a space. *)
Fixpoint sub_single_newlines (prev : option codepoint) (s : str) : str :=
  match s with
  | [] => []
  | c :: rest =>
      let lone :=
        (c =? LF)
        && negb (match prev with Some p => p =? LF | None => false end)
        && negb (match rest with n :: _ => n =? LF | [] => false end) in
      (if lone then SPACE else c) :: sub_single_newlines (Some c) rest
  end.

(** [re.sub(r'\s+', ' ', s)]: leftmost, greedy, non-overlapping, so every
    maximal run of white space becomes one space.  [in_run] tells that the
    previous character belonged to the run being replaced. *)
Fixpoint sub_space_runs (in_run : bool) (s : str) : str :=
  match s with
  | [] => []
  | c :: rest =>
      if isspace c
      then (if in_run then [] else [SPACE]) ++ sub_space_runs true rest
      else c :: sub_space_runs false rest
  end.

Fixpoint lstrip (s : str) : str :=
  match s with
  | c :: rest => if isspace c then lstrip rest else s
  | [] => []
  end.

Definition rstrip (s : str) : str := rev (lstrip (rev s)).

(** [s.strip()] *)
Definition strip (s : str) : str := rstrip (lstrip s).

(** The three cleaning statements of [extract_text_from_file]. *)
Definition clean_text (raw_text : str) : str :=
  let cleaned_text := sub_single_newlines None raw_text in
  let cleaned_text := sub_space_runs false cleaned_text in
  strip cleaned_text.

(** [tempfile.NamedTemporaryFile(delete=False)]: the file exists from here
    on and stays on disk when the [with] block is left. *)
Definition NamedTemporaryFile : E str :=
  name <- of_sum tmp_create ;;
  write_file name (Bytes []) ;;
  ret name.

(** [tmp.write(data)] *)
Definition tmp_write (name : str) (data : list N) : E unit :=
  match tmp_write_error data with
  | Some e =>
      if tmp_write_deferred data then ret tt
      else
        write_file name (Bytes (firstn (tmp_written data) data)) ;;
        raise e
  | None => write_file name (Bytes data)
  end.

(** Leaving the [with] block closes the file and flushes what [tmp.write]
    left in the buffer. *)
Definition tmp_close (name : str) (data : list N) : E unit :=
  match tmp_write_error data with
  | Some e =>
      if tmp_write_deferred data then
        write_file name (Bytes (firstn (tmp_written data) data)) ;;
        raise e
      else ret tt
  | None => ret tt
  end.

Definition os_unlink (p : str) : E unit :=
  raise_if (os_unlink_error p) ;;
  fun w => (Return tt, mkWorld (remove_file p (files w)) (screen w)).

Definition pdf_mime := lit "application/pdf".
Definition docx_mime :=
  lit "application/vnd.openxmlformats-officedocument.wordprocessingml.document".

(** The [try] block.  The local [tmp_path] is bound by the last statement
    of the [with] block, after the write; then the block is left and the
    file closed. *)
Definition extract_try (uploaded_file : UploadedFile)
  : M (world * option str) str :=
  tmp <- lift NamedTemporaryFile ;;
  lift (tmp_write tmp (getvalue uploaded_file)) ;;
  set_local (Some tmp) ;;
  let tmp_path := tmp in
  lift (tmp_close tmp (getvalue uploaded_file)) ;;
  raw_text <-
    (if str_eqb (file_type uploaded_file) pdf_mime then
       f <- lift (read_file tmp_path) ;;
       pages <- of_sum (PdfReader_pages f) ;;
       ret (join [LF] pages)
     else if str_eqb (file_type uploaded_file) docx_mime then
       doc <- lift (read_file tmp_path) ;;
       paragraphs <- of_sum (Document_paragraphs doc) ;;
       ret (join [LF] paragraphs)
     else
       of_sum (decode_utf8 (getvalue uploaded_file))) ;;
  ret (clean_text raw_text).

(** The [finally] block: [if 'tmp_path' in locals() and
    os.path.exists(tmp_path): os.unlink(tmp_path)], itself guarded. *)
Definition extract_finally : M (world * option str) unit :=
  try_except
    (tmp_path <- get_local ;;
     match tmp_path with
     | Some p =>
         present <- lift (os_path_exists p) ;;
         if present then lift (os_unlink p) else ret tt
     | None => ret tt
     end)
    (fun e => lift (st_warning (lit "Couldn't delete temp file: " ++ e))).

Definition extract_text_from_file (uploaded_file : UploadedFile) : E str :=
  with_locals None
    (try_finally
       (try_except
          (extract_try uploaded_file)
          (fun e =>
             lift (st_error (lit "Error reading file: " ++ e)) ;;
             ret []))
       extract_finally).

(** ** Red flag detection *)

Definition SIREN : codepoint := 128680.

(** The dict, in insertion order. *)
Definition RED_FLAGS : list (string * str) :=
  [ ("\bchest\s*pain\b"%string,
     SIREN :: lit " CALL 911: May indicate heart attack!");
    ("\bdifficulty\s*breathing\b"%string,
     SIREN :: lit " Seek emergency care immediately!");
    ("\bsudden\s*numbness\b"%string,
     SIREN :: lit " Stroke warning - call emergency services!");
    ("\bsevere\s*bleeding\b"%string,
     SIREN :: lit " Apply pressure and call for emergency help!");
    ("\bsuicidal\s*thoughts\b"%string,
     SIREN :: lit " Contact emergency services or a crisis hotline immediately") ].

Definition emergency_notice : str :=
  lit "Do not use this app for emergencies. Seek immediate medical attention.".

(** The [for flag_pattern, message in ....items():] loop. *)
Fixpoint scan_flags (flags : list (string * str)) (text : str) : E bool :=
  match flags with
  | [] => ret false
  | (flag_pattern, message) :: rest =>
      if re_search flag_pattern text then
        st_error message ;;
        st_error emergency_notice ;;
        ret true
      else scan_flags rest text
  end.

(** [check_red_flags] over a given rule table. *)
Definition check_red_flags_with (flags : list (string * str)) (text : str)
  : E bool :=
  match text with
  | [] => ret false
  | _ => scan_flags flags (lower text)
  end.

Definition check_red_flags (text : str) : E bool :=
  check_red_flags_with RED_FLAGS text.

(** ** PDF generation *)

Definition QUESTION_MARK : codepoint := 63.

(** [s.encode('ascii', 'replace').decode('ascii')] *)
Definition ascii_replace (s : str) : str :=
  map (fun c => if is_ascii c then c else QUESTION_MARK) s.

Definition is_latin1 (s : str) : bool := forallb (fun c => c <? 256) s.

(** A drawing call of the [FPDF] object, the local [pdf].  The core font
    Helvetica takes Latin-1 text only. *)
Definition pdf_do (op : pdf_op) : M (world * list pdf_op) unit :=
  fun s => (Return tt, (fst s, snd s ++ [op])).

Definition pdf_text (op : pdf_op) (txt : str) : M (world * list pdf_op) unit :=
  if is_latin1 txt then pdf_do op else raise (fpdf_encoding_error txt).

Definition pdf_cell w h txt border ln align :=
  pdf_text (Cell w h txt border ln align) txt.
Definition pdf_multi_cell w h txt := pdf_text (MultiCell w h txt) txt.

(** [pdf.output(filename)]: the document is written to the file of that
    name; with the empty name no file is written (the library hands the
    document back, or prints it, instead). *)
Definition pdf_output (filename : str) : M (world * list pdf_op) unit :=
  match filename with
  | [] => ret tt
  | _ =>
      raise_if (fpdf_output_error filename) ;;
      ops <- get_local ;;
      lift (write_file filename (PdfDocument ops))
  end.

Definition Helvetica := lit "Helvetica".
Definition disclaimer : str :=
  lit "Disclaimer: This document is not medical advice. Always consult a healthcare professional.".

Definition create_medical_pdf (symptoms guide filename : str)
  : E (option str) :=
  with_locals []
    (try_except
       (pdf_do AddPage ;;
        pdf_do (SetFont Helvetica (lit "B") 16) ;;
        pdf_cell 0 10 (lit "Your Medical Visit Summary") 0 1 (lit "C") ;;
        pdf_do (Ln 5) ;;
        pdf_do (SetFont Helvetica (lit "") 11) ;;
        let safe_text := ascii_replace guide in
        pdf_multi_cell 0 7 (ascii_replace (lit "Symptoms:" ++ [LF] ++ symptoms)) ;;
        pdf_do (Ln 5) ;;
        pdf_multi_cell 0 7 (lit "Guidance:" ++ [LF] ++ safe_text) ;;
        pdf_do (Ln 10) ;;
        pdf_do (SetFont Helvetica (lit "I") 8) ;;
        pdf_multi_cell 0 5 disclaimer ;;
        pdf_output filename ;;
        ret (Some filename))
       (fun e =>
          lift (st_error (lit "PDF generation failed: " ++ e)) ;;
          ret None)).

Definition medical_summary_pdf := lit "medical_summary.pdf".

(** The preview shows the file's bytes (base64, in an iframe). *)
Definition show_pdf_preview (pdf_path : option str) : E unit :=
  match pdf_path with
  | Some p =>
      match p with
      | [] => ret tt
      | _ =>
          present <- os_path_exists p ;;
          if present then
            f <- read_file p ;;
            emit (StPdfPreview f)
          else ret tt
      end
  | None => ret tt
  end.

(** ** The page script *)

(** The widgets' values for one run of the script. *)
Record inputs := mkInputs {
  reading_level : N;              (* st.sidebar.slider, 1..5 *)
  doctor_specialty : str;         (* st.selectbox *)
  uploaded_file : option UploadedFile;  (* st.file_uploader *)
  symptoms_area : str;            (* st.text_area *)
  generate_clicked : bool         (* st.button *)
}.

Definition grade_levels : list (N * str) :=
  [ (1, lit "5th grade"); (2, lit "7th grade"); (3, lit "9th grade");
    (4, lit "11th grade"); (5, lit "College level") ].

(** [d[k]] *)
Definition dict_get (d : list (N * str)) (k : N) : option str :=
  match find (fun e => fst e =? k) d with
  | Some e => Some (snd e)
  | None => None
  end.

Definition subscript (d : list (N * str)) (k : N) : E str :=
  match dict_get d k with
  | Some v => ret v
  | None => raise (lit "KeyError")
  end.

Definition INDENT : str := lit "                    ".

(** The f-string assigned to [prompt]. *)
Definition prompt (doctor_specialty symptoms selected_level : str) : str :=
  [LF] ++
  INDENT ++ lit "You are a health assistant for patients seeing a "
         ++ doctor_specialty ++ lit "." ++ [LF] ++
  INDENT ++ lit "Given these symptoms: " ++ symptoms ++ [LF] ++
  INDENT ++ [LF] ++
  INDENT ++ lit "Create a guide at " ++ selected_level
         ++ lit " reading level:" ++ [LF] ++
  INDENT ++ lit "1. Possible causes (plain language, no diagnosis)" ++ [LF] ++
  INDENT ++ lit "2. 5 priority questions for the doctor" ++ [LF] ++
  INDENT ++ lit "3. Appointment preparation tips" ++ [LF] ++
  INDENT ++ [LF] ++
  INDENT ++ lit "Rules:" ++ [LF] ++
  INDENT ++ lit "- Use bullet points" ++ [LF] ++
  INDENT ++ lit "- For level 1-2: Max 1-2 syllable words" ++ [LF] ++
  INDENT ++ lit "- For level 3-4: May include medical terms with explanations" ++ [LF] ++
  INDENT ++ lit "- Never suggest treatments" ++ [LF] ++
  INDENT ++ lit "- Use only standard ASCII characters" ++ [LF] ++
  INDENT.

Definition guide_header (selected_level : str) : str :=
  lit "## " ++ [128203] ++ lit " Your Guide (" ++ selected_level
    ++ lit " level)" ++ [LF; LF].

(** [for chunk in response:] appending to [full_response] and redrawing
    the placeholder. *)
Fixpoint stream_chunks (selected_level : str) (full_response chunks : list str)
  : E (list str) :=
  match chunks with
  | [] => ret full_response
  | chunk :: rest =>
      let full_response := full_response ++ [chunk] in
      st_markdown (guide_header selected_level ++ join [] full_response) ;;
      stream_chunks selected_level full_response rest
  end.

(** The body of [try:] under the spinner. *)
Definition generate_guide (doctor_specialty symptoms selected_level : str)
  : E unit :=
  let prompt := prompt doctor_specialty symptoms selected_level in
  emit (GenerateContent (lit "gemini-1.5-flash") prompt) ;;
  response <- of_sum (generate_stream prompt) ;;
  full_response <- stream_chunks selected_level [] (fst response) ;;
  raise_if (snd response) ;;
  let guide := join [] full_response in
  pdf_path <- create_medical_pdf symptoms guide medical_summary_pdf ;;
  match pdf_path with
  | Some p =>
      match p with
      | [] => ret tt
      | _ =>
          st_markdown (lit "---") ;;
          st_subheader ([128196] ++ lit " PDF Preview") ;;
          show_pdf_preview pdf_path ;;
          f <- read_file p ;;
          emit (StDownloadButton ([128190] ++ lit " Download Full Summary") f
                  medical_summary_pdf pdf_mime)
      end
  | None => ret tt
  end.

Definition main (i : inputs) : E unit :=
  st_title ([129658] ++ lit " Medical Helper") ;;
  st_warning ([9888; 65039] ++ lit " NOT for emergencies. Always consult a real doctor.") ;;
  st_sidebar_header (lit "Settings") ;;
  selected_level <- subscript grade_levels (reading_level i) ;;
  let symptoms := symptoms_area i in
  symptoms <-
    match uploaded_file i with
    | Some file =>
        extracted_text <- extract_text_from_file file ;;
        match extracted_text with
        | [] => ret symptoms
        | _ =>
            st_success ([128196] ++ lit " Extracted Text Preview:") ;;
            st_text_area (lit "Extracted Content") extracted_text ;;
            let symptoms := extracted_text in
            flagged <- check_red_flags symptoms ;;
            (if flagged : bool then st_stop else ret tt) ;;
            ret symptoms
        end
    | None =>
        match symptoms with
        | [] => ret symptoms
        | _ =>
            flagged <- check_red_flags symptoms ;;
            (if flagged : bool then st_stop else ret tt) ;;
            ret symptoms
        end
    end ;;
  (if generate_clicked i then
     match symptoms with
     | [] => st_warning (lit "Please describe symptoms or upload a file")
     | _ =>
         st_spinner (lit "Generating your personalized guide...") ;;
         try_except
           (generate_guide (doctor_specialty i) symptoms selected_level)
           (fun e => st_error (lit "Generation failed: " ++ e))
     end
   else ret tt) ;;
  st_markdown (lit "---") ;;
  st_caption (lit "Built with " ++ [10084; 65039] ++ lit " for patient education").

(** The prompts handed to the generator during a run. *)
Definition prompts_sent (w : world) : list str :=
  flat_map (fun e => match e with GenerateContent _ p => [p] | _ => [] end)
           (screen w).
End App.

(** ** Sample tables and collaborators for the worked examples *)

(** The Latin-1 supplement of the Unicode tables (white space also beyond
    it); code points further up count as symbols without case. *)
Definition sample_unicode : UnicodeData := {|
  uni_isspace := fun c =>
    (c =? 133) || (c =? 160) || (c =? 5760) || in_range 8192 8202 c
    || (c =? 8232) || (c =? 8233) || (c =? 8239) || (c =? 8287) || (c =? 12288);
  uni_isalnum := fun c =>
    (c =? 170) || (c =? 178) || (c =? 179) || (c =? 181) || (c =? 185)
    || (c =? 186) || in_range 188 190 c
    || in_range 192 214 c || in_range 216 246 c || in_range 248 255 c;
  uni_lower := fun _ c _ =>
    if in_range 192 214 c || in_range 216 222 c then [c + 32] else [c]
|}.

(** Collaborators that work: two pages or paragraphs, a UTF-8 codec for
    ASCII bytes, a generator answering in two chunks. *)
Definition sample_env : Environment := {|
  tmp_create := inr (lit "/tmp/tmpk3v9x1");
  tmp_write_error := fun _ => None;
  tmp_write_deferred := fun _ => false;
  tmp_written := fun _ => 0%nat;
  os_unlink_error := fun _ => None;
  PdfReader_pages := fun _ => inr [lit "mild"; lit "headache"];
  Document_paragraphs := fun _ => inr [lit "mild"; lit "headache"];
  decode_utf8 := fun data =>
    if forallb is_ascii data then inr data
    else inl (lit "'utf-8' codec can't decode byte");
  generate_stream := fun _ => inr ([lit "Possible "; lit "causes"], None);
  fpdf_encoding_error := fun _ => lit "'latin-1' codec can't encode character";
  fpdf_output_error := fun _ => None
|}.

(** The same, but the PDF parser rejects the file. *)
Definition corrupt_pdf_env : Environment := {|
  tmp_create := inr (lit "/tmp/tmpk3v9x1");
  tmp_write_error := fun _ => None;
  tmp_write_deferred := fun _ => false;
  tmp_written := fun _ => 0%nat;
  os_unlink_error := fun _ => None;
  PdfReader_pages := fun _ => inl (lit "EOF marker not found");
  Document_paragraphs := fun _ => inl (lit "Package not found");
  decode_utf8 := @decode_utf8 sample_env;
  generate_stream := @generate_stream sample_env;
  fpdf_encoding_error := @fpdf_encoding_error sample_env;
  fpdf_output_error := fun _ => None
|}.

(** The same as [sample_env], but the disk is full when the upload is
    written to the temporary file: nothing reaches the file, and an upload
    of up to 8192 bytes, the size of the write buffer, fails only when the
    file is closed. *)
Definition disk_full_env : Environment := {|
  tmp_create := inr (lit "/tmp/tmpk3v9x1");
  tmp_write_error := fun _ => Some (lit "[Errno 28] No space left on device");
  tmp_write_deferred := fun data => N.of_nat (List.length data) <=? 8192;
  tmp_written := fun _ => 0%nat;
  os_unlink_error := fun _ => None;
  PdfReader_pages := @PdfReader_pages sample_env;
  Document_paragraphs := @Document_paragraphs sample_env;
  decode_utf8 := @decode_utf8 sample_env;
  generate_stream := @generate_stream sample_env;
  fpdf_encoding_error := @fpdf_encoding_error sample_env;
  fpdf_output_error := fun _ => None
|}.

(** The same as [sample_env], but the temporary file cannot be unlinked. *)
Definition unlink_denied_env : Environment := {|
  tmp_create := inr (lit "/tmp/tmpk3v9x1");
  tmp_write_error := fun _ => None;
  tmp_write_deferred := fun _ => false;
  tmp_written := fun _ => 0%nat;
  os_unlink_error := fun _ => Some (lit "[Errno 13] Permission denied");
  PdfReader_pages := @PdfReader_pages sample_env;
  Document_paragraphs := @Document_paragraphs sample_env;
  decode_utf8 := @decode_utf8 sample_env;
  generate_stream := @generate_stream sample_env;
  fpdf_encoding_error := @fpdf_encoding_error sample_env;
  fpdf_output_error := fun _ => None
|}.

Definition empty_world : world := mkWorld [] [].

Definition text_plain := lit "text/plain".

(** ** Reading the hazard patterns

    Every pattern of [RED_FLAGS] spells two words with [\s*] between them
    and [\b] on both sides. *)

Definition phrase_regex (w1 w2 : str) : regex :=
  WordBoundary :: map Chr w1 ++ SpaceStar :: map Chr w2 ++ [WordBoundary].

(** The two words of each pattern, in the order of [RED_FLAGS]. *)
Definition hazard_phrases : list (str * str) :=
  [ (lit "chest", lit "pain");
    (lit "difficulty", lit "breathing");
    (lit "sudden", lit "numbness");
    (lit "severe", lit "bleeding");
    (lit "suicidal", lit "thoughts") ].

(** The character before a position: the last one of [s], or [prev] when
    [s] is empty. *)
Definition last_after (prev : option codepoint) (s : str) : option codepoint :=
  fold_left (fun _ x => Some x) s prev.

Definition last_error (s : str) : option codepoint := last_after None s.




(** ** Vocabulary of the properties *)

Section Vocabulary.
Context {U : UnicodeData} {Env : Environment}.

(** Words made of word characters. *)
Definition solid (w : str) : Prop := w <> [] /\ forallb isword w = true.

(** A whole-phrase occurrence of the words [w1 w2] in [t]. *)
Definition whole_phrase (w1 w2 t : str) : Prop :=
  exists pre ws post,
    t = pre ++ w1 ++ ws ++ w2 ++ post /\ forallb isspace ws = true
    /\ isword_at (last_error pre) = false
    /\ isword_at (hd_error post) = false.

(** The world after the scanner has shown a rule's advisory. *)
Definition flagged_world (w : world) (message : str) : world :=
  mkWorld (files w) (screen w ++ [StError message; StError emergency_notice]).

(** ** Words of a text

    The maximal runs of characters that are not white space, in order
    ([s.split()]).  [words_from s] gives the run standing at the head of [s]
    (empty when [s] starts with white space) and the later runs. *)

Definition cons_word (w : str) (ws : list str) : list str :=
  match w with [] => ws | _ => w :: ws end.

Fixpoint words_from (s : str) : str * list str :=
  match s with
  | [] => ([], [])
  | c :: rest =>
      let (w, ws) := words_from rest in
      if isspace c then ([], cons_word w ws) else (c :: w, ws)
  end.

Definition words (s : str) : list str :=
  let (w, ws) := words_from s in cons_word w ws.

(** A word: not empty, no white space in it. *)
Definition is_word (u : str) : Prop :=
  u <> [] /\ forallb (fun c => negb (isspace c)) u = true.

Definition starts_with_space (s : str) : bool :=
  match s with c :: _ => isspace c | [] => false end.

(** What the parsers make of the uploaded bytes. *)
Definition raw_text_of (uploaded_file : UploadedFile) : exn + str :=
  if str_eqb (file_type uploaded_file) pdf_mime then
    match PdfReader_pages (Bytes (getvalue uploaded_file)) with
    | inl e => inl e
    | inr pages => inr (join [LF] pages)
    end
  else if str_eqb (file_type uploaded_file) docx_mime then
    match Document_paragraphs (Bytes (getvalue uploaded_file)) with
    | inl e => inl e
    | inr paragraphs => inr (join [LF] paragraphs)
    end
  else decode_utf8 (getvalue uploaded_file).

(** The world once [name] holds [c]. *)
Definition with_file (w : world) (name : str) (c : content) : world :=
  mkWorld ((name, c) :: remove_file name (files w)) (screen w).

(** What the temporary file holds after a failure to store the upload. *)
Definition partly_written (data : list N) : list N :=
  firstn (tmp_written data) data.

Definition shown (w : world) (e : effect) : world :=
  mkWorld (files w) (screen w ++ [e]).

(** The world after the [finally] block. *)
Definition after_cleanup (w : world) (tmp_path : option str) : world :=
  match tmp_path with
  | Some p =>
      match lookup_file p (files w) with
      | Some _ =>
          match os_unlink_error p with
          | None => mkWorld (remove_file p (files w)) (screen w)
          | Some e => shown w (StWarning (lit "Couldn't delete temp file: " ++ e))
          end
      | None => w
      end
  | None => w
  end.

(** What [create_medical_pdf] draws. *)
Definition summary_ops (symptoms guide : str) : list pdf_op :=
  [ AddPage;
    SetFont Helvetica (lit "B") 16;
    Cell 0 10 (lit "Your Medical Visit Summary") 0 1 (lit "C");
    Ln 5;
    SetFont Helvetica (lit "") 11;
    MultiCell 0 7 (ascii_replace (lit "Symptoms:" ++ [LF] ++ symptoms));
    Ln 5;
    MultiCell 0 7 (lit "Guidance:" ++ [LF] ++ ascii_replace guide);
    Ln 10;
    SetFont Helvetica (lit "I") 8;
    MultiCell 0 5 disclaimer ].

(** The world when the script reaches the file uploader. *)
Definition greeted (w : world) : world :=
  shown (shown (shown w
    (StTitle ([129658] ++ lit " Medical Helper")))
    (StWarning ([9888; 65039] ++ lit " NOT for emergencies. Always consult a real doctor.")))
    (StSidebarHeader (lit "Settings")).

(** The button step, once [symptoms] has been settled. *)
Definition on_button (i : inputs) (symptoms selected_level : str) : E unit :=
  if generate_clicked i then
    match symptoms with
    | [] => st_warning (lit "Please describe symptoms or upload a file")
    | _ =>
        st_spinner (lit "Generating your personalized guide...") ;;
        try_except
          (generate_guide (doctor_specialty i) symptoms selected_level)
          (fun e => st_error (lit "Generation failed: " ++ e))
    end
  else ret tt.

(** What the extraction returns, whatever the world. *)
Definition extracted_text (uploaded_file : UploadedFile) : str :=
  match tmp_create with
  | inl _ => []
  | inr _ =>
      match tmp_write_error (getvalue uploaded_file) with
      | Some _ => []
      | None =>
          match raw_text_of uploaded_file with
          | inl _ => []
          | inr raw_text => clean_text raw_text
          end
      end
  end.
End Vocabulary.

(** A computation that calls the generator on no path. *)
Definition quiet {A} (m : E A) : Prop :=
  forall w, prompts_sent (snd (m w)) = prompts_sent w.

Definition is_prompt (e : effect) : bool :=
  match e with GenerateContent _ _ => true | _ => false end.

Create HintDb quiet.

(** A text file of 20000 bytes, more than one write buffer. *)
Definition large_upload : UploadedFile :=
  mkUpload text_plain (repeat 109 (N.to_nat 20000)).

(** A text file that holds a single line break. *)
Definition blank_upload : UploadedFile := mkUpload text_plain [LF].

(** ** Further vocabulary: shape of a cleaned text *)

Section TextShape.
Context {U : UnicodeData}.

Definition ends_with_space (s : str) : bool :=
  match last_error s with Some c => isspace c | None => false end.

(** Two white-space characters next to each other somewhere in [s]. *)
Fixpoint adjacent_spaces (s : str) : bool :=
  match s with
  | a :: rest =>
      match rest with
      | b :: _ => (isspace a && isspace b) || adjacent_spaces rest
      | [] => false
      end
  | [] => false
  end.

(** Whether [sub_space_runs] is inside a run after reading [s], having
    been in state [in_run] before. *)
Fixpoint run_state (in_run : bool) (s : str) : bool :=
  match s with
  | [] => in_run
  | c :: rest => run_state (isspace c) rest
  end.
End TextShape.

(** A parser that reads two pages, the first ending in the middle of a
    sentence. *)
Definition two_page_env : Environment := {|
  tmp_create := inr (lit "/tmp/tmpk3v9x1");
  tmp_write_error := fun _ => None;
  tmp_write_deferred := fun _ => false;
  tmp_written := fun _ => 0%nat;
  os_unlink_error := fun _ => None;
  PdfReader_pages := fun _ =>
    inr [lit "Patient reports chest" ++ [LF]; lit "pain  since Monday." ++ [LF]];
  Document_paragraphs := fun _ =>
    inr [lit "Patient reports chest"; lit ""; lit "pain since Monday."];
  decode_utf8 := @decode_utf8 sample_env;
  generate_stream := @generate_stream sample_env;
  fpdf_encoding_error := @fpdf_encoding_error sample_env;
  fpdf_output_error := fun _ => None
|}.

(** What the generation step shows once the stream has ended and the PDF
    has been written. *)
Definition summary_shown (doc : content) : list effect :=
  [ StMarkdown (lit "---");
    StSubheader ([128196] ++ lit " PDF Preview");
    StPdfPreview doc;
    StDownloadButton ([128190] ++ lit " Download Full Summary") doc
      medical_summary_pdf pdf_mime ].

(** The redraws of the placeholder while [chunks] arrive. *)
Definition redraws (selected_level : str) (chunks : list str) : list effect :=
  map (fun k => StMarkdown (guide_header selected_level ++ join [] (firstn k chunks)))
      (seq 1 (List.length chunks)).

(** How a generation fails: at the call, or after some fragments. *)
Definition stream_failure (r : exn + (list str * option exn))
  : option (list str * exn) :=
  match r with
  | inl e => Some ([], e)
  | inr (chunks, Some e) => Some (chunks, e)
  | inr (_, None) => None
  end.

(** The same as [sample_env], but the summary cannot be written. *)
Definition read_only_env : Environment := {|
  tmp_create := inr (lit "/tmp/tmpk3v9x1");
  tmp_write_error := fun _ => None;
  tmp_write_deferred := fun _ => false;
  tmp_written := fun _ => 0%nat;
  os_unlink_error := fun _ => None;
  PdfReader_pages := @PdfReader_pages sample_env;
  Document_paragraphs := @Document_paragraphs sample_env;
  decode_utf8 := @decode_utf8 sample_env;
  generate_stream := @generate_stream sample_env;
  fpdf_encoding_error := @fpdf_encoding_error sample_env;
  fpdf_output_error := fun _ => Some (lit "[Errno 30] Read-only file system")
|}.

(** The same as [sample_env], but the generator breaks off after one
    fragment. *)
Definition broken_stream_env : Environment := {|
  tmp_create := inr (lit "/tmp/tmpk3v9x1");
  tmp_write_error := fun _ => None;
  tmp_write_deferred := fun _ => false;
  tmp_written := fun _ => 0%nat;
  os_unlink_error := fun _ => None;
  PdfReader_pages := @PdfReader_pages sample_env;
  Document_paragraphs := @Document_paragraphs sample_env;
  decode_utf8 := @decode_utf8 sample_env;
  generate_stream := fun _ => inr ([lit "Possible "], Some (lit "429 quota exceeded"));
  fpdf_encoding_error := @fpdf_encoding_error sample_env;
  fpdf_output_error := fun _ => None
|}.

(** ** Vocabulary for whole runs of the script *)

Section RunVocabulary.
Context {U : UnicodeData} {Env : Environment}.

(** The scanner's answer, as a value. *)
Definition hazard_detected (text : str) : bool :=
  match fst (check_red_flags text empty_world) with
  | Return b => b
  | _ => false
  end.

(** The text the script passes to the scanner (empty: it passes none). *)
Definition scanned_text (i : inputs) : str :=
  match uploaded_file i with
  | Some file => extracted_text file
  | None => symptoms_area i
  end.

(** The value of [symptoms] when the script reaches the button. *)
Definition symptoms_used (i : inputs) : str :=
  match uploaded_file i with
  | Some file =>
      match extracted_text file with
      | [] => symptoms_area i
      | text => text
      end
  | None => symptoms_area i
  end.

(** The part of [main] between the widgets and the button. *)
Definition settle_symptoms (i : inputs) : E str :=
  match uploaded_file i with
  | Some file =>
      extracted_text <- extract_text_from_file file ;;
      match extracted_text with
      | [] => ret (symptoms_area i)
      | _ =>
          st_success ([128196] ++ lit " Extracted Text Preview:") ;;
          st_text_area (lit "Extracted Content") extracted_text ;;
          flagged <- check_red_flags extracted_text ;;
          (if flagged : bool then st_stop else ret tt) ;;
          ret extracted_text
      end
  | None =>
      match symptoms_area i with
      | [] => ret (symptoms_area i)
      | _ =>
          flagged <- check_red_flags (symptoms_area i) ;;
          (if flagged : bool then st_stop else ret tt) ;;
          ret (symptoms_area i)
      end
  end.

(** The last two output calls of [main]. *)
Definition footer : list effect :=
  [ StMarkdown (lit "---");
    StCaption (lit "Built with " ++ [10084; 65039] ++ lit " for patient education") ].

(** A computation that never calls [st.stop()]. *)
Definition calm {A} (m : E A) : Prop :=
  forall w, fst (m w) <> ScriptStop.
End RunVocabulary.

(** ** The start-up block of the module ("Secure Configuration") *)

(** The argument of [strip]: the double and the single quote character. *)
Definition QUOTES : str := [34; 39].

Definition in_chars (chars : str) (c : codepoint) : bool :=
  existsb (N.eqb c) chars.

Fixpoint lstrip_chars (chars s : str) : str :=
  match s with
  | c :: rest => if in_chars chars c then lstrip_chars chars rest else s
  | [] => []
  end.

(** [s.strip(chars)] *)
Definition strip_chars (chars s : str) : str :=
  rev (lstrip_chars chars (rev (lstrip_chars chars s))).

(** [s.startswith(prefix)] *)
Fixpoint startswith (s prefix : str) : bool :=
  match prefix with
  | [] => true
  | p :: prefix' =>
      match s with
      | c :: s' => (c =? p) && startswith s' prefix'
      | [] => false
      end
  end.

Definition wrong_key_format : str :=
  [9888; 65039] ++ lit " Key format looks wrong. Gemini keys start with 'AI'".

(** The [try]/[except] at module level.  [secret] is what
    [st.secrets['GOOGLE_API_KEY']] yields (it raises when the secret is
    missing), [genai_configure_error] tells whether [genai.configure]
    raises; the result is the key the generator library is configured
    with. *)
Definition secure_configuration
    (secret : exn + str) (genai_configure_error : str -> option exn) : E str :=
  try_except
    (raw <- of_sum secret ;;
     let api_key := strip_chars QUOTES raw in
     (if negb (startswith api_key (lit "AI"))
      then st_error wrong_key_format ;; st_stop
      else ret tt) ;;
     raise_if (genai_configure_error api_key) ;;
     ret api_key)
    (fun e =>
       st_error (lit "Key Error: " ++ e) ;;
       st_stop).

(** * Properties *)

Section RegexFacts.
Context {U : UnicodeData}.

Lemma RED_FLAGS_spell :
  map (fun r => re_compile (fst r)) RED_FLAGS
  = map (fun p => phrase_regex (fst p) (snd p)) hazard_phrases.
Proof. reflexivity. Qed.

Lemma last_after_app prev a b :
  last_after prev (a ++ b) = last_after (last_after prev a) b.
Proof. unfold last_after. apply fold_left_app. Qed.

Lemma match_here_chars w : forall p prev s,
  match_here (map Chr w ++ p) prev s = true <->
  exists s', s = w ++ s' /\ match_here p (last_after prev w) s' = true.
Proof.
  induction w as [|c w IH]; intros p prev s; simpl.
  - split.
    + intros H. exists s. split; [reflexivity | exact H].
    + intros (s' & -> & H). exact H.
  - destruct s as [|x s].
    + split; [discriminate | intros (s' & E & _); discriminate].
    + rewrite andb_true_iff, N.eqb_eq, IH. split.
      * intros (-> & s' & -> & H). exists s'. split; [reflexivity | exact H].
      * intros (s' & E & H). injection E as -> ->.
        split; [reflexivity | exists s'; split; [reflexivity | exact H]].
Qed.

Lemma match_here_space_star_cons p prev x s :
  match_here (SpaceStar :: p) prev (x :: s)
  = if isspace x
    then match_here (SpaceStar :: p) (Some x) s || match_here p prev (x :: s)
    else match_here p prev (x :: s).
Proof. reflexivity. Qed.

Lemma match_here_space_star p : forall s prev,
  match_here (SpaceStar :: p) prev s = true <->
  exists ws s', s = ws ++ s' /\ forallb isspace ws = true
                /\ match_here p (last_after prev ws) s' = true.
Proof.
  induction s as [|x s IH]; intros prev.
  - simpl. split.
    + intros H. exists [], []. repeat split; assumption.
    + intros (ws & s' & E & _ & H).
      symmetry in E. apply app_eq_nil in E as [-> ->]. exact H.
  - rewrite match_here_space_star_cons. split.
    + destruct (isspace x) eqn:Hx.
      * rewrite orb_true_iff, IH. intros [(ws & s' & -> & Hws & H) | H].
        -- exists (x :: ws), s'. simpl. rewrite Hx, Hws. auto.
        -- exists [], (x :: s). auto.
      * intros H. exists [], (x :: s). auto.
    + intros (ws & s' & E & Hws & H). destruct ws as [|y ws].
      * simpl in E, H. subst s'.
        destruct (isspace x); [rewrite H; apply orb_true_r | exact H].
      * simpl in E, Hws, H. injection E as <- ->.
        apply andb_true_iff in Hws as [Hy Hws]. rewrite Hy.
        apply orb_true_iff. left. apply IH. exists ws, s'. auto.
Qed.

Lemma search_from_spec p : forall s prev,
  search_from p prev s = true <->
  exists pre post, s = pre ++ post
                   /\ match_here p (last_after prev pre) post = true.
Proof.
  induction s as [|x s IH]; intros prev; simpl search_from.
  - rewrite orb_false_r. split.
    + intros H. exists [], []. auto.
    + intros (pre & post & E & H).
      symmetry in E. apply app_eq_nil in E as [-> ->]. exact H.
  - rewrite orb_true_iff, IH. split.
    + intros [H | (pre & post & -> & H)].
      * exists [], (x :: s). auto.
      * exists (x :: pre), post. auto.
    + intros (pre & post & E & H). destruct pre as [|y pre].
      * simpl in E, H. subst post. left. exact H.
      * simpl in E, H. injection E as <- ->. right. exists pre, post. auto.
Qed.

Lemma last_after_solid w prev :
  solid w -> isword_at (last_after prev w) = true.
Proof.
  intros [Hne Hw]. destruct (exists_last Hne) as (w' & c & ->).
  rewrite last_after_app. simpl.
  rewrite forallb_app in Hw. apply andb_true_iff in Hw as [_ Hc].
  simpl in Hc. now rewrite andb_true_r in Hc.
Qed.

Lemma hd_solid w rest :
  solid w -> isword_at (hd_error (w ++ rest)) = true.
Proof.
  intros [Hne Hw]. destruct w as [|c w]; [congruence|].
  simpl in *. now apply andb_true_iff in Hw as [Hc _].
Qed.

Lemma at_boundary_before prev next :
  isword_at next = true -> at_boundary prev next = negb (isword_at prev).
Proof. unfold at_boundary. intros ->. now destruct (isword_at prev). Qed.

Lemma at_boundary_after prev next :
  isword_at prev = true -> at_boundary prev next = negb (isword_at next).
Proof. unfold at_boundary. intros ->. reflexivity. Qed.

(** The pattern [\b w1 \s* w2 \b] matches at a position exactly when the
    two words stand there, separated by white space only (possibly none),
    with no word character right before or right after. *)
Lemma match_here_phrase w1 w2 prev s :
  solid w1 -> solid w2 ->
  match_here (phrase_regex w1 w2) prev s = true <->
  exists ws rest,
    s = w1 ++ ws ++ w2 ++ rest /\ forallb isspace ws = true
    /\ isword_at prev = false /\ isword_at (hd_error rest) = false.
Proof.
  intros S1 S2. unfold phrase_regex.
  change (match_here (WordBoundary :: ?p) prev s)
    with (at_boundary prev (hd_error s) && match_here p prev s).
  rewrite andb_true_iff, match_here_chars. split.
  - intros (Hb & s1 & -> & H).
    apply match_here_space_star in H as (ws & s2 & -> & Hws & H).
    apply match_here_chars in H as (rest & -> & H).
    simpl in H. rewrite andb_true_r in H.
    rewrite at_boundary_before in Hb by now apply hd_solid.
    rewrite at_boundary_after in H by now apply last_after_solid.
    exists ws, rest. repeat split; try assumption.
    + now destruct (isword_at prev).
    + now destruct (isword_at (hd_error rest)).
  - intros (ws & rest & -> & Hws & Hp & Hn). split.
    + rewrite at_boundary_before by now apply hd_solid. now rewrite Hp.
    + exists (ws ++ w2 ++ rest). split; [reflexivity|].
      apply match_here_space_star. exists ws, (w2 ++ rest).
      repeat split; try assumption.
      apply match_here_chars. exists rest. split; [reflexivity|].
      simpl. rewrite andb_true_r.
      rewrite at_boundary_after by now apply last_after_solid.
      now rewrite Hn.
Qed.

Lemma search_phrase w1 w2 t :
  solid w1 -> solid w2 ->
  search_from (phrase_regex w1 w2) None t = true <-> whole_phrase w1 w2 t.
Proof.
  intros S1 S2. rewrite search_from_spec. unfold whole_phrase. split.
  - intros (pre & s & -> & H).
    apply match_here_phrase in H as (ws & post & -> & Hws & Hp & Hn);
      try assumption.
    exists pre, ws, post. auto.
  - intros (pre & ws & post & -> & Hws & Hp & Hn).
    exists pre, (w1 ++ ws ++ w2 ++ post). split; [reflexivity|].
    apply match_here_phrase; try assumption. exists ws, post. auto.
Qed.

Lemma hazard_phrases_solid w1 w2 :
  In (w1, w2) hazard_phrases -> solid w1 /\ solid w2.
Proof.
  unfold hazard_phrases. simpl.
  intros H. repeat destruct H as [H | H]; try contradiction;
    injection H as <- <-; split; (split; [discriminate | reflexivity]).
Qed.

(** The [n]-th rule searches for the [n]-th phrase. *)
Lemma rule_phrase n pattern message w1 w2 t :
  nth_error RED_FLAGS n = Some (pattern, message) ->
  nth_error hazard_phrases n = Some (w1, w2) ->
  re_search pattern t = true <-> whole_phrase w1 w2 t.
Proof.
  intros Hr Hp. unfold re_search.
  assert (Hc : re_compile pattern = phrase_regex w1 w2).
  { pose proof RED_FLAGS_spell as E.
    apply (f_equal (fun l => nth_error l n)) in E.
    rewrite !nth_error_map, Hr, Hp in E. simpl in E. now injection E. }
  rewrite Hc. apply nth_error_In in Hp.
  apply hazard_phrases_solid in Hp as [S1 S2]. now apply search_phrase.
Qed.
End RegexFacts.

Section Scanner.
Context {U : UnicodeData}.

(** The loop stops at the first rule that matches and shows its message;
    when no rule matches it shows nothing. *)
Lemma scan_flags_cases flags t w :
  (exists k pk mk,
      nth_error flags k = Some (pk, mk) /\ re_search pk t = true
      /\ (forall j pj mj, (j < k)%nat -> nth_error flags j = Some (pj, mj) ->
                          re_search pj t = false)
      /\ scan_flags flags t w = (Return true, flagged_world w mk))
  \/ ((forall j pj mj, nth_error flags j = Some (pj, mj) ->
                       re_search pj t = false)
      /\ scan_flags flags t w = (Return false, w)).
Proof.
  induction flags as [|[p m] flags IH]; simpl.
  - right. split; [|reflexivity]. intros [|j] pj mj H; discriminate.
  - destruct (re_search p t) eqn:Hp.
    + left. exists 0%nat, p, m. repeat split; try assumption.
      * intros j pj mj Hj. inversion Hj.
      * unfold flagged_world, bind, st_error, emit, ret. simpl.
        now rewrite <- app_assoc.
    + destruct IH as [(k & pk & mk & Hk & Hs & Hfirst & Hrun) | [Hnone Hrun]].
      * left. exists (S k), pk, mk. repeat split; try assumption.
        intros [|j] pj mj Hj Hnth; simpl in Hnth.
        -- now injection Hnth as <- <-.
        -- apply (Hfirst j pj mj); [lia | exact Hnth].
      * right. split; [|exact Hrun].
        intros [|j] pj mj Hnth; simpl in Hnth.
        -- now injection Hnth as <- <-.
        -- now apply (Hnone j pj mj).
Qed.

(** On ASCII text lower-casing maps each capital letter to its small
    letter and keeps every other character: letter case is erased before
    the rules are tried. *)
Lemma lower_from_ascii s : forall before,
  forallb is_ascii s = true -> lower_from before s = map ascii_lower s.
Proof.
  induction s as [|c s IH]; intros before H; [reflexivity|].
  simpl in H. apply andb_true_iff in H as [Hc Hs].
  simpl. rewrite Hc. simpl. now rewrite IH.
Qed.

Lemma lower_ascii s :
  forallb is_ascii s = true -> lower s = map ascii_lower s.
Proof. apply lower_from_ascii. Qed.

Example lower_mixed_case :
  lower (lit "Chest" ++ [9; LF] ++ lit "PAIN!") = lit "chest" ++ [9; LF] ++ lit "pain!".
Proof. reflexivity. Qed.

Example lower_alphabet :
  lower (lit "ABCDEFGHIJKLMNOPQRSTUVWXYZ [\]^_`{|}~ 0123456789 @")
  = lit "abcdefghijklmnopqrstuvwxyz [\]^_`{|}~ 0123456789 @".
Proof. reflexivity. Qed.

Lemma check_red_flags_nonempty text w :
  lower text <> [] ->
  check_red_flags text w = scan_flags RED_FLAGS (lower text) w.
Proof.
  intros H. destruct text; [now elim H | reflexivity].
Qed.


(** A rule that matches makes the scanner answer "hazard", with the
    advisory of the first matching rule, which is that rule or an earlier
    one. *)
Lemma check_red_flags_first n pattern message text w :
  nth_error RED_FLAGS n = Some (pattern, message) ->
  re_search pattern (lower text) = true ->
  lower text <> [] ->
  exists k pattern_k message_k,
    nth_error RED_FLAGS k = Some (pattern_k, message_k)
    /\ (k <= n)%nat
    /\ re_search pattern_k (lower text) = true
    /\ (forall j pj mj, (j < k)%nat -> nth_error RED_FLAGS j = Some (pj, mj) ->
                        re_search pj (lower text) = false)
    /\ check_red_flags text w = (Return true, flagged_world w message_k).
Proof.
  intros Hn Hs Hne. rewrite check_red_flags_nonempty by assumption.
  destruct (scan_flags_cases RED_FLAGS (lower text) w)
    as [(k & pk & mk & Hk & Hsk & Hfirst & Hrun) | [Hnone _]].
  - exists k, pk, mk. repeat split; try assumption.
    destruct (Nat.le_gt_cases k n) as [Hle | Hgt]; [exact Hle|].
    rewrite (Hfirst n pattern message Hgt Hn) in Hs. discriminate.
  - rewrite (Hnone n pattern message Hn) in Hs. discriminate.
Qed.

Lemma whole_phrase_nonempty w1 w2 t :
  w1 <> [] -> whole_phrase w1 w2 t -> t <> [].
Proof.
  intros Hne (pre & ws & post & -> & _) E.
  apply app_eq_nil in E as [_ E]. apply app_eq_nil in E as [E _].
  contradiction.
Qed.

Lemma hazard_phrase_nth_solid n w1 w2 :
  nth_error hazard_phrases n = Some (w1, w2) -> solid w1 /\ solid w2.
Proof. intros H. apply nth_error_In in H. now apply hazard_phrases_solid. Qed.

(** Every rule has its phrase, at the same index. *)
Lemma rule_has_phrase j pj mj :
  nth_error RED_FLAGS j = Some (pj, mj) ->
  exists v1 v2, nth_error hazard_phrases j = Some (v1, v2).
Proof.
  intros H.
  do 5 (destruct j as [|j]; [simpl; eauto|]).
  destruct j; discriminate.
Qed.


End Scanner.

Section ScannerClaims.
Context {U : UnicodeData}.



(** *** Lower-casing and letter case

    [str.lower] works character by character; an ASCII character gives one
    character whatever stands around it. *)













(** C9.  For every rule, a text whose lower-cased form has the rule's two
    words written together, with nothing between them, as a whole word is
    matched by the rule's pattern -- [\s*] accepts the empty separator --
    and the scanner answers "hazard detected". *)
Theorem run_together_words_detected
    (n : nat) (pattern : string) (message w1 w2 text pre post : str)
    (w : world) :
  nth_error RED_FLAGS n = Some (pattern, message) ->
  nth_error hazard_phrases n = Some (w1, w2) ->
  lower text = pre ++ w1 ++ w2 ++ post ->
  isword_at (last_error pre) = false ->
  isword_at (hd_error post) = false ->
  re_search pattern (lower text) = true
  /\ exists shown, check_red_flags text w = (Return true, flagged_world w shown).
Proof.
  intros Hn Hp E Hb Ha.
  assert (Hwhole : whole_phrase w1 w2 (lower text)).
  { exists pre, [], post. auto. }
  assert (Hfound : re_search pattern (lower text) = true).
  { now apply (rule_phrase n pattern message w1 w2 _ Hn Hp). }
  split; [exact Hfound|].
  destruct (hazard_phrase_nth_solid n w1 w2 Hp) as [[Hne _] _].
  destruct (check_red_flags_first n pattern message text w Hn Hfound
              (whole_phrase_nonempty w1 w2 _ Hne Hwhole))
    as (k & pk & mk & _ & _ & _ & _ & Hrun).
  now exists mk.
Qed.

(** C10.  On the empty string the scanner answers "no hazard" and shows
    nothing whatever the rule table holds -- even a rule such as [\s*],
    which matches the empty text, is not tried. *)
Theorem empty_text_not_scanned (flags : list (string * str)) (w : world) :
  check_red_flags_with flags [] w = (Return false, w)
  /\ check_red_flags [] w = (Return false, w)
  /\ re_search "\s*" [] = true.
Proof. repeat split. Qed.

(** The same rule is tried, and matches, as soon as the text is not empty. *)
Example catch_all_rule_on_text (w : world) :
  check_red_flags_with [("\s*"%string, lit "stop")] (lit "x") w
  = (Return true, flagged_world w (lit "stop")).
Proof.
  unfold flagged_world. cbn. unfold bind, st_error, emit, ret. cbn.
  now rewrite <- app_assoc.
Qed.
End ScannerClaims.



Lemma run_together_words_detected_witness :
  @re_search sample_unicode "\bchest\s*pain\b"
    (@lower sample_unicode (lit "Sharp ChestPain since noon")) = true
  /\ exists shown,
       @check_red_flags sample_unicode (lit "Sharp ChestPain since noon") empty_world
       = (Return true, flagged_world empty_world shown).
Proof.
  apply (@run_together_words_detected sample_unicode 0
           "\bchest\s*pain\b"%string
           (SIREN :: lit " CALL 911: May indicate heart attack!")
           (lit "chest") (lit "pain")
           (lit "Sharp ChestPain since noon")
           (lit "sharp ") (lit " since noon") empty_world);
    reflexivity.
Defined.

Section Cleaning.
Context {U : UnicodeData}.

Lemma isspace_LF : isspace LF = true.
Proof. reflexivity. Qed.

Lemma isspace_SPACE : isspace SPACE = true.
Proof. reflexivity. Qed.

(** The first substitution only trades white space for white space, so
    the second one erases its effect. *)
Lemma sub_space_runs_after_newlines s : forall b prev,
  sub_space_runs b (sub_single_newlines prev s) = sub_space_runs b s.
Proof.
  induction s as [|c s IH]; intros b prev; [reflexivity|].
  cbn [sub_single_newlines sub_space_runs].
  match goal with |- context [if ?lone then SPACE else c] =>
    destruct lone eqn:Hl end.
  - apply andb_true_iff in Hl as [Hl _]. apply andb_true_iff in Hl as [Hl _].
    apply N.eqb_eq in Hl. subst c.
    rewrite isspace_SPACE, isspace_LF. now rewrite IH.
  - destruct (isspace c); now rewrite IH.
Qed.

Lemma sub_space_runs_false s :
  sub_space_runs false s
  = (if starts_with_space s then [SPACE] else []) ++ sub_space_runs true s.
Proof.
  destruct s as [|c s]; [reflexivity|]. simpl.
  destruct (isspace c); reflexivity.
Qed.

Lemma lstrip_fixed s : starts_with_space s = false -> lstrip s = s.
Proof. destruct s as [|c s]; simpl; [reflexivity|]. now intros ->. Qed.

Lemma sub_space_runs_true_head s :
  starts_with_space (sub_space_runs true s) = false.
Proof.
  induction s as [|c s IH]; [reflexivity|]. simpl.
  destruct (isspace c) eqn:Hc; simpl; [exact IH | exact Hc].
Qed.

Lemma lstrip_sub_space_runs s :
  lstrip (sub_space_runs false s) = sub_space_runs true s.
Proof.
  rewrite sub_space_runs_false.
  destruct (starts_with_space s); simpl.
  - apply lstrip_fixed, sub_space_runs_true_head.
  - apply lstrip_fixed, sub_space_runs_true_head.
Qed.

Lemma lstrip_snoc a c :
  lstrip (a ++ [c])
  = match lstrip a with
    | [] => if isspace c then [] else [c]
    | y => y ++ [c]
    end.
Proof.
  induction a as [|d a IH]; simpl.
  - destruct (isspace c); reflexivity.
  - destruct (isspace d); [exact IH | reflexivity].
Qed.

Lemma rstrip_cons c x :
  rstrip (c :: x)
  = match rstrip x with
    | [] => if isspace c then [] else [c]
    | y => c :: y
    end.
Proof.
  unfold rstrip. simpl rev. rewrite lstrip_snoc.
  destruct (lstrip (rev x)) as [|d y] eqn:E.
  - simpl. destruct (isspace c); reflexivity.
  - rewrite rev_app_distr. simpl.
    destruct (rev y ++ [d]) eqn:E'; [|reflexivity].
    now apply app_eq_nil in E' as [_ E'].
Qed.

Lemma words_from_words s :
  forall w ws, words_from s = (w, ws) ->
               Forall is_word ws
               /\ forallb (fun c => negb (isspace c)) w = true.
Proof.
  induction s as [|c s IH]; intros w ws E; simpl in E.
  - injection E as <- <-. split; [constructor | reflexivity].
  - destruct (words_from s) as [w' ws'].
    destruct (IH w' ws' eq_refl) as [Hws Hw].
    destruct (isspace c) eqn:Hc; injection E as <- <-.
    + split; [|reflexivity]. destruct w' as [|d w']; simpl; [exact Hws|].
      constructor; [|exact Hws]. split; [discriminate | exact Hw].
    + split; [exact Hws|]. simpl. now rewrite Hc.
Qed.

Lemma words_are_words s : Forall is_word (words s).
Proof.
  unfold words. destruct (words_from s) as [w ws] eqn:E.
  destruct (words_from_words s w ws E) as [Hws Hw].
  destruct w as [|d w]; simpl; [exact Hws|].
  constructor; [|exact Hws]. split; [discriminate | exact Hw].
Qed.

Lemma join_words_nil ws :
  Forall is_word ws -> join [SPACE] ws = [] -> ws = [].
Proof.
  intros H E. destruct ws as [|u ws]; [reflexivity|].
  inversion H as [|? ? [Hne _] _]; subst.
  destruct u as [|c u]; [congruence|].
  destruct ws; discriminate.
Qed.

Lemma join_cons u ws :
  join [SPACE] (u :: ws)
  = u ++ match ws with [] => [] | _ => SPACE :: join [SPACE] ws end.
Proof. destruct ws; simpl; [now rewrite app_nil_r | reflexivity]. Qed.

(** What is left of the collapsed text once its right end is stripped:
    the words joined by single spaces, after one space if the text began
    with white space and has a word. *)
Lemma rstrip_sub_space_runs s :
  forall b,
    rstrip (sub_space_runs b s)
    = (if negb b && starts_with_space s
       then match words s with [] => [] | _ => [SPACE] end
       else [])
      ++ join [SPACE] (words s).
Proof.
  induction s as [|c s IH]; intros b.
  - destruct b; reflexivity.
  - pose proof (words_are_words s) as Hproper.
    pose proof (IH true) as IHt. pose proof (IH false) as IHf.
    simpl negb in IHt, IHf. simpl andb in IHt, IHf.
    cbn [app] in IHt.
    unfold words in *. cbn [sub_space_runs words_from starts_with_space].
    destruct (words_from s) as [w ws] eqn:E.
    destruct (isspace c) eqn:Hc.
    + (* white space: the words are those of the rest *)
      assert (Hcw : cons_word [] (cons_word w ws) = cons_word w ws)
        by reflexivity.
      rewrite Hcw. destruct b; simpl negb; simpl andb; cbn [app].
      * exact IHt.
      * rewrite rstrip_cons, IHt.
        destruct (join [SPACE] (cons_word w ws)) eqn:Ej.
        -- rewrite (join_words_nil _ Hproper Ej). rewrite isspace_SPACE.
           reflexivity.
        -- destruct (cons_word w ws); [discriminate | reflexivity].
    + (* a word character: it extends the word at the head of the rest *)
      rewrite andb_false_r. cbn [app].
      change (cons_word (c :: w) ws) with ((c :: w) :: ws).
      rewrite rstrip_cons, IHf, join_cons.
      destruct s as [|d s'].
      * simpl in E. injection E as <- <-. simpl. now rewrite Hc.
      * simpl starts_with_space. simpl in E.
        destruct (words_from s') as [w' ws'].
        destruct (isspace d) eqn:Hd; injection E as <- <-.
        -- change (cons_word [] (cons_word w' ws')) with (cons_word w' ws').
           destruct (cons_word w' ws'); simpl; [now rewrite Hc | reflexivity].
        -- change (cons_word (d :: w') ws') with ((d :: w') :: ws').
           rewrite join_cons. reflexivity.
Qed.
End Cleaning.

Section CleaningClaims.
Context {U : UnicodeData}.

Lemma clean_text_words raw : clean_text raw = join [SPACE] (words raw).
Proof.
  unfold clean_text, strip.
  rewrite sub_space_runs_after_newlines, lstrip_sub_space_runs.
  now rewrite rstrip_sub_space_runs.
Qed.

Lemma words_from_word_app u t :
  forallb (fun c => negb (isspace c)) u = true ->
  words_from (u ++ t) = let (w, l) := words_from t in (u ++ w, l).
Proof.
  induction u as [|c u IH]; simpl; intros Hu.
  - now destruct (words_from t).
  - apply andb_true_iff in Hu as [Hc Hu]. rewrite (IH Hu).
    destruct (words_from t) as [w l].
    apply negb_true_iff in Hc. now rewrite Hc.
Qed.

Lemma words_join ws : Forall is_word ws -> words (join [SPACE] ws) = ws.
Proof.
  induction 1 as [|u ws [Hne Hu] Hws IH]; [reflexivity|].
  rewrite join_cons. unfold words in *.
  rewrite (words_from_word_app u _ Hu).
  destruct ws as [|v l].
  - simpl. rewrite app_nil_r. destruct u; [congruence | reflexivity].
  - cbn [words_from]. rewrite isspace_SPACE.
    destruct (words_from (join [SPACE] (v :: l))) as [w' l'].
    rewrite IH, app_nil_r. destruct u; [congruence | reflexivity].
Qed.

(** C4.  The cleaning of an extracted text yields exactly its words --
    its maximal runs of non-white-space characters, unchanged and in
    order -- joined by single spaces: every run of white space between
    two words, line breaks included, has become one space and the white
    space at both ends is gone.  The words of the result are the words of
    the input, and cleaning a cleaned text changes nothing. *)
Theorem clean_text_normalises (raw_text : str) :
  clean_text raw_text = join [SPACE] (words raw_text)
  /\ Forall is_word (words raw_text)
  /\ words (clean_text raw_text) = words raw_text
  /\ clean_text (clean_text raw_text) = clean_text raw_text.
Proof.
  pose proof (words_are_words raw_text) as Hw.
  assert (Hsame : words (clean_text raw_text) = words raw_text).
  { rewrite clean_text_words. now apply words_join. }
  repeat split; try assumption.
  - apply clean_text_words.
  - rewrite (clean_text_words (clean_text raw_text)), Hsame.
    symmetry. apply clean_text_words.
Qed.

Example clean_text_paragraphs :
  clean_text ([SPACE; LF] ++ lit "Patient reports" ++ [LF] ++ lit "mild   fever."
                ++ [LF; LF; LF] ++ lit "No cough." ++ [9; LF])
  = lit "Patient reports mild fever. No cough.".
Proof. reflexivity. Qed.
End CleaningClaims.

(** ** Extraction, step by step *)

Section ExtractionFacts.
Context {U : UnicodeData} {Env : Environment}.

Lemma str_eqb_refl s : str_eqb s s = true.
Proof. unfold str_eqb. destruct (list_eq_dec N.eq_dec s s); congruence. Qed.

Lemma lookup_file_head name c fs : lookup_file name ((name, c) :: fs) = Some c.
Proof. unfold lookup_file. simpl. now rewrite str_eqb_refl. Qed.

Lemma remove_file_head name c fs :
  remove_file name ((name, c) :: fs) = remove_file name fs.
Proof. unfold remove_file. simpl. now rewrite str_eqb_refl. Qed.

Lemma remove_file_twice name fs :
  remove_file name (remove_file name fs) = remove_file name fs.
Proof.
  unfold remove_file. induction fs as [|[p c] fs IH]; simpl; [reflexivity|].
  destruct (str_eqb p name) eqn:E; simpl; [exact IH|].
  now rewrite E, IH.
Qed.

Lemma lookup_file_removed name fs : lookup_file name (remove_file name fs) = None.
Proof.
  unfold lookup_file, remove_file.
  induction fs as [|[p c] fs IH]; simpl; [reflexivity|].
  destruct (str_eqb p name) eqn:E; simpl; [exact IH|]. now rewrite E.
Qed.

Lemma extract_try_run uploaded_file w :
  extract_try uploaded_file (w, None)
  = match tmp_create with
    | inl e => (Raise e, (w, None))
    | inr name =>
        match tmp_write_error (getvalue uploaded_file) with
        | Some e =>
            (Raise e,
             (with_file w name (Bytes (partly_written (getvalue uploaded_file))),
              if tmp_write_deferred (getvalue uploaded_file)
              then Some name else None))
        | None =>
            (match raw_text_of uploaded_file with
             | inl e => Raise e
             | inr raw_text => Return (clean_text raw_text)
             end,
             (with_file w name (Bytes (getvalue uploaded_file)), Some name))
        end
    end.
Proof.
  unfold extract_try, NamedTemporaryFile, tmp_write, tmp_close, raw_text_of,
    with_file, partly_written,
    bind, lift, of_sum, raise_if, write_file, read_file, set_local, ret, raise.
  destruct w as [fs sc]. simpl.
  destruct tmp_create as [e | name]; [reflexivity|]. simpl.
  destruct (tmp_write_error (getvalue uploaded_file)) as [e|].
  { destruct (tmp_write_deferred (getvalue uploaded_file));
      cbn [files screen fst snd];
      now rewrite remove_file_head, remove_file_twice. }
  cbn [files screen fst snd].
  rewrite remove_file_head, remove_file_twice.
  destruct (str_eqb (file_type uploaded_file) pdf_mime).
  { cbn [files screen fst snd]. rewrite lookup_file_head.
    destruct (PdfReader_pages (Bytes (getvalue uploaded_file))); reflexivity. }
  destruct (str_eqb (file_type uploaded_file) docx_mime).
  { cbn [files screen fst snd]. rewrite lookup_file_head.
    destruct (Document_paragraphs (Bytes (getvalue uploaded_file))); reflexivity. }
  destruct (decode_utf8 (getvalue uploaded_file)); reflexivity.
Qed.

Lemma extract_finally_run w tmp_path :
  extract_finally (w, tmp_path) = (Return tt, (after_cleanup w tmp_path, tmp_path)).
Proof.
  unfold extract_finally, after_cleanup, try_except, bind, get_local, lift,
    os_path_exists, os_unlink, raise_if, st_warning, emit, shown, ret, raise.
  destruct w as [fs sc]. simpl.
  destruct tmp_path as [p|]; [|reflexivity]. simpl.
  destruct (lookup_file p fs); [|reflexivity]. simpl.
  destruct (os_unlink_error p); reflexivity.
Qed.

(** The whole call: the [try] block, the handler, the [finally] block. *)
Lemma extract_text_from_file_run uploaded_file w :
  extract_text_from_file uploaded_file w
  = match extract_try uploaded_file (w, None) with
    | (Return text, (w1, tmp_path)) => (Return text, after_cleanup w1 tmp_path)
    | (Raise e, (w1, tmp_path)) =>
        (Return [],
         after_cleanup (shown w1 (StError (lit "Error reading file: " ++ e)))
                       tmp_path)
    | (ScriptStop, (w1, tmp_path)) => (ScriptStop, after_cleanup w1 tmp_path)
    end.
Proof.
  unfold extract_text_from_file, with_locals, try_finally.
  unfold try_except at 1.
  destruct (extract_try uploaded_file (w, None)) as [[text | e |] [w1 tmp_path]].
  - now rewrite extract_finally_run.
  - unfold bind, lift, st_error, emit, ret. simpl.
    now rewrite extract_finally_run.
  - now rewrite extract_finally_run.
Qed.
End ExtractionFacts.

Section ExtractionClaims.
Context {U : UnicodeData} {Env : Environment}.

Lemma after_cleanup_screen w tmp_path :
  exists after, screen (after_cleanup w tmp_path) = screen w ++ after.
Proof.
  unfold after_cleanup. destruct tmp_path as [p|].
  - destruct (lookup_file p (files w)).
    + destruct (os_unlink_error p).
      * eexists. reflexivity.
      * exists []. simpl. now rewrite app_nil_r.
    + exists []. now rewrite app_nil_r.
  - exists []. now rewrite app_nil_r.
Qed.

(** C6.  Whatever raises inside the [try] block -- creating or writing the
    temporary file, opening or parsing the document, decoding the bytes --
    the call returns normally with exactly the empty string and shows
    "Error reading file: " followed by the exception's text. *)
Theorem extraction_failure_yields_empty
    (uploaded_file : UploadedFile) (w : world) (e : exn) :
  fst (extract_try uploaded_file (w, None)) = Raise e ->
  exists w',
    extract_text_from_file uploaded_file w = (Return [], w')
    /\ exists after,
         screen w' = screen w ++ StError (lit "Error reading file: " ++ e) :: after.
Proof.
  intros Hraise. rewrite extract_text_from_file_run.
  assert (Hscreen : screen (fst (snd (extract_try uploaded_file (w, None))))
                    = screen w).
  { rewrite extract_try_run. destruct tmp_create; [reflexivity|].
    destruct (tmp_write_error (getvalue uploaded_file)); reflexivity. }
  destruct (extract_try uploaded_file (w, None)) as [r [w1 tmp_path]].
  simpl in Hraise, Hscreen. subst r.
  eexists. split; [reflexivity|].
  destruct (after_cleanup_screen
              (shown w1 (StError (lit "Error reading file: " ++ e))) tmp_path)
    as [after Hafter].
  exists after. rewrite Hafter. simpl. rewrite Hscreen.
  now rewrite <- app_assoc.
Qed.

(** When the parsers succeed the call returns the cleaned text. *)
Lemma extraction_success uploaded_file w name raw_text :
  tmp_create = inr name ->
  tmp_write_error (getvalue uploaded_file) = None ->
  raw_text_of uploaded_file = inr raw_text ->
  fst (extract_text_from_file uploaded_file w) = Return (clean_text raw_text).
Proof.
  intros Hc Hw Hr.
  rewrite extract_text_from_file_run, extract_try_run, Hc, Hw, Hr.
  reflexivity.
Qed.

(** Once [tmp_path] is bound -- the upload has been written -- every way
    out of the call unlinks the temporary file, or shows a warning when
    the unlinking fails. *)
Lemma temp_file_released_once_named uploaded_file w name :
  tmp_create = inr name ->
  tmp_write_error (getvalue uploaded_file) = None ->
  match os_unlink_error name with
  | None =>
      lookup_file name (files (snd (extract_text_from_file uploaded_file w)))
      = None
  | Some e =>
      In (StWarning (lit "Couldn't delete temp file: " ++ e))
         (screen (snd (extract_text_from_file uploaded_file w)))
  end.
Proof.
  intros Hc Hw.
  rewrite extract_text_from_file_run, extract_try_run, Hc, Hw.
  destruct (raw_text_of uploaded_file) as [e | raw_text];
    unfold after_cleanup, shown, with_file; cbn [files screen snd];
    rewrite lookup_file_head;
    destruct (os_unlink_error name) as [e' |]; cbn [files screen snd].
  - apply in_or_app. right. now left.
  - rewrite remove_file_head. apply lookup_file_removed.
  - apply in_or_app. right. now left.
  - rewrite remove_file_head. apply lookup_file_removed.
Qed.

(** When [tmp.write] raises, [tmp_path] is never bound: the file that
    [NamedTemporaryFile] created stays on disk with what had been written,
    nothing tries to unlink it and no warning is shown. *)
Lemma temp_file_left_when_write_fails uploaded_file w name e :
  tmp_create = inr name ->
  tmp_write_error (getvalue uploaded_file) = Some e ->
  tmp_write_deferred (getvalue uploaded_file) = false ->
  extract_text_from_file uploaded_file w
  = (Return [],
     shown (with_file w name (Bytes (partly_written (getvalue uploaded_file))))
           (StError (lit "Error reading file: " ++ e))).
Proof.
  intros Hc Hw Hd.
  now rewrite extract_text_from_file_run, extract_try_run, Hc, Hw, Hd.
Qed.
End ExtractionClaims.

Lemma extraction_failure_yields_empty_witness :
  exists w',
    @extract_text_from_file sample_unicode corrupt_pdf_env
      (mkUpload pdf_mime (lit "%PDF-1.4 truncated")) empty_world
    = (Return [], w')
    /\ exists after,
         screen w'
         = screen empty_world
             ++ StError (lit "Error reading file: " ++ lit "EOF marker not found")
             :: after.
Proof.
  apply (@extraction_failure_yields_empty sample_unicode corrupt_pdf_env
           (mkUpload pdf_mime (lit "%PDF-1.4 truncated")) empty_world
           (lit "EOF marker not found")).
  reflexivity.
Defined.

(** C5, at the input where it fails.  The disk is full when the upload (a
    text file of 20000 bytes) is written: the call returns the empty string
    with an error message, and afterwards the temporary file still exists
    and no deletion warning has been shown -- the [finally] block found no
    [tmp_path] to unlink. *)
Theorem temp_file_leaks_on_write_failure :
  let after :=
    snd (@extract_text_from_file sample_unicode disk_full_env
           large_upload empty_world) in
  fst (@extract_text_from_file sample_unicode disk_full_env
         large_upload empty_world) = Return []
  /\ lookup_file (lit "/tmp/tmpk3v9x1") (files after) = Some (Bytes [])
  /\ screen after
     = [StError (lit "Error reading file: [Errno 28] No space left on device")].
Proof. repeat split. Qed.

(** ** Rendering *)

Section RenderingClaims.
Context {Env : Environment}.

Lemma ascii_replace_is_ascii s : forallb is_ascii (ascii_replace s) = true.
Proof.
  induction s as [|c s IH]; [reflexivity|]. simpl. rewrite IH, andb_true_r.
  destruct (is_ascii c) eqn:E; [exact E | reflexivity].
Qed.

Lemma is_ascii_is_latin1 s : forallb is_ascii s = true -> is_latin1 s = true.
Proof.
  unfold is_latin1, is_ascii. rewrite !forallb_forall. intros H c Hc.
  specialize (H c Hc). apply N.ltb_lt in H. apply N.ltb_lt. lia.
Qed.

Lemma ascii_replace_app a b :
  ascii_replace (a ++ b) = ascii_replace a ++ ascii_replace b.
Proof. apply map_app. Qed.

Lemma create_medical_pdf_run symptoms guide filename w :
  create_medical_pdf symptoms guide filename w
  = match filename with
    | [] => (Return (Some []), w)
    | _ =>
        match fpdf_output_error filename with
        | Some e =>
            (Return None, shown w (StError (lit "PDF generation failed: " ++ e)))
        | None =>
            (Return (Some filename),
             with_file w filename (PdfDocument (summary_ops symptoms guide)))
        end
    end.
Proof.
  assert (H1 : is_latin1 (ascii_replace (lit "Symptoms:" ++ [LF] ++ symptoms)) = true)
    by apply is_ascii_is_latin1, ascii_replace_is_ascii.
  assert (H2 : is_latin1 (lit "Guidance:" ++ [LF] ++ ascii_replace guide) = true).
  { apply is_ascii_is_latin1.
    change (lit "Guidance:" ++ [LF] ++ ascii_replace guide)
      with (ascii_replace (lit "Guidance:" ++ [LF]) ++ ascii_replace guide).
    rewrite <- ascii_replace_app. apply ascii_replace_is_ascii. }
  unfold create_medical_pdf, with_locals, try_except, pdf_multi_cell, pdf_cell,
    pdf_text, pdf_output.
  rewrite H1, H2.
  unfold bind, pdf_do, raise_if, get_local, lift, write_file, st_error, emit,
    ret, raise, shown, with_file, summary_ops.
  destruct w as [fs sc]. destruct filename as [|c q]; [reflexivity|]. cbn.
  destruct (fpdf_output_error (c :: q)); reflexivity.
Qed.

(** The summary's own file name is not empty. *)
Lemma create_medical_pdf_summary symptoms guide w :
  create_medical_pdf symptoms guide medical_summary_pdf w
  = match fpdf_output_error medical_summary_pdf with
    | Some e =>
        (Return None, shown w (StError (lit "PDF generation failed: " ++ e)))
    | None =>
        (Return (Some medical_summary_pdf),
         with_file w medical_summary_pdf
           (PdfDocument (summary_ops symptoms guide)))
    end.
Proof. now rewrite create_medical_pdf_run. Qed.

(** C8.  For every symptom text and guidance text the call returns
    normally -- the file name, or [None] with a message if writing the
    file fails; no character of the input can make it raise.  (With the
    empty file name nothing is written and the empty name is returned.)
    Both body sections handed to the PDF object consist of ASCII
    characters only: the heading followed by the text in which each
    non-ASCII character has been replaced, in place, by one question mark
    and every ASCII character is kept. *)
Theorem rendering_sanitizes_and_returns
    (symptoms guide filename : str) (w : world) :
  create_medical_pdf symptoms guide filename w
  = match filename with
    | [] => (Return (Some []), w)
    | _ =>
        match fpdf_output_error filename with
        | Some e =>
            (Return None, shown w (StError (lit "PDF generation failed: " ++ e)))
        | None =>
            (Return (Some filename),
             with_file w filename (PdfDocument (summary_ops symptoms guide)))
        end
    end
  /\ In (MultiCell 0 7 (lit "Symptoms:" ++ [LF] ++ ascii_replace symptoms))
        (summary_ops symptoms guide)
  /\ In (MultiCell 0 7 (lit "Guidance:" ++ [LF] ++ ascii_replace guide))
        (summary_ops symptoms guide)
  /\ forallb is_ascii (lit "Symptoms:" ++ [LF] ++ ascii_replace symptoms) = true
  /\ forallb is_ascii (lit "Guidance:" ++ [LF] ++ ascii_replace guide) = true
  /\ (forall (s : str) (i : nat),
        nth_error (ascii_replace s) i
        = option_map (fun c => if is_ascii c then c else QUESTION_MARK)
                     (nth_error s i)).
Proof.
  split; [apply create_medical_pdf_run|].
  split; [unfold summary_ops; simpl; tauto|].
  split; [unfold summary_ops; simpl; tauto|].
  split.
  { change (lit "Symptoms:" ++ [LF] ++ ascii_replace symptoms)
      with (ascii_replace (lit "Symptoms:" ++ [LF]) ++ ascii_replace symptoms).
    rewrite <- ascii_replace_app. apply ascii_replace_is_ascii. }
  split.
  { change (lit "Guidance:" ++ [LF] ++ ascii_replace guide)
      with (ascii_replace (lit "Guidance:" ++ [LF]) ++ ascii_replace guide).
    rewrite <- ascii_replace_app. apply ascii_replace_is_ascii. }
  intros s i. unfold ascii_replace. apply nth_error_map.
Qed.

(** Without the replacement a character outside Latin-1, such as the euro
    sign, makes the drawing call raise. *)
Example multi_cell_rejects_euro (st : world * list pdf_op) :
  pdf_multi_cell 0 7 (lit "cost: 5 " ++ [8364]) st
  = (Raise (fpdf_encoding_error (lit "cost: 5 " ++ [8364])), st).
Proof. reflexivity. Qed.

(** "café" in the guidance, "naïve" in the symptoms. *)
Example rendering_accented :
  summary_ops (lit "na" ++ [239] ++ lit "ve") (lit "caf" ++ [233])
  = [ AddPage;
      SetFont Helvetica (lit "B") 16;
      Cell 0 10 (lit "Your Medical Visit Summary") 0 1 (lit "C");
      Ln 5;
      SetFont Helvetica (lit "") 11;
      MultiCell 0 7 (lit "Symptoms:" ++ [LF] ++ lit "na?ve");
      Ln 5;
      MultiCell 0 7 (lit "Guidance:" ++ [LF] ++ lit "caf?");
      Ln 10;
      SetFont Helvetica (lit "I") 8;
      MultiCell 0 5 disclaimer ].
Proof. reflexivity. Qed.
End RenderingClaims.

(** ** The page script: which prompts reach the generator *)

Section ScriptFacts.
Context {U : UnicodeData} {Env : Environment}.

Lemma prompts_sent_shown w e :
  prompts_sent (shown w e)
  = prompts_sent w ++ match e with GenerateContent _ p => [p] | _ => [] end.
Proof.
  unfold prompts_sent, shown. simpl. rewrite flat_map_app. simpl.
  now rewrite app_nil_r.
Qed.

Lemma prompts_sent_flagged w message :
  prompts_sent (flagged_world w message) = prompts_sent w.
Proof.
  unfold prompts_sent, flagged_world. simpl. rewrite flat_map_app. simpl.
  now rewrite app_nil_r.
Qed.

Lemma prompts_sent_files fs fs' sc :
  prompts_sent (mkWorld fs sc) = prompts_sent (mkWorld fs' sc).
Proof. reflexivity. Qed.

Lemma quiet_ret {A} (a : A) : quiet (ret a).
Proof. intros w. reflexivity. Qed.

Lemma quiet_raise {A} e : quiet (@raise world A e).
Proof. intros w. reflexivity. Qed.

Lemma quiet_stop {A} : quiet (@st_stop A).
Proof. intros w. reflexivity. Qed.

Lemma quiet_bind {A B} (m : E A) (k : A -> E B) :
  quiet m -> (forall a, quiet (k a)) -> quiet (bind m k).
Proof.
  intros Hm Hk w. unfold bind. specialize (Hm w).
  destruct (m w) as [[a | e |] w']; simpl in *; try assumption.
  now rewrite Hk.
Qed.

Lemma quiet_try_except {A} (m : E A) h :
  quiet m -> (forall e, quiet (h e)) -> quiet (try_except m h).
Proof.
  intros Hm Hh w. unfold try_except. specialize (Hm w).
  destruct (m w) as [[a | e |] w']; simpl in *; try assumption.
  now rewrite Hh.
Qed.

Lemma quiet_emit e : is_prompt e = false -> quiet (emit e).
Proof.
  intros He w. change (snd (emit e w)) with (shown w e).
  rewrite prompts_sent_shown. destruct e; try discriminate;
    now rewrite app_nil_r.
Qed.

Lemma quiet_of_sum {A} (r : exn + A) : quiet (of_sum r).
Proof. destruct r; [apply quiet_raise | apply quiet_ret]. Qed.

Lemma quiet_raise_if r : quiet (@raise_if world r).
Proof. destruct r; [apply quiet_raise | apply quiet_ret]. Qed.

Lemma quiet_read_file p : quiet (read_file p).
Proof. intros w. unfold read_file. now destruct (lookup_file p (files w)). Qed.

Lemma quiet_os_path_exists p : quiet (os_path_exists p).
Proof. intros w. reflexivity. Qed.

Lemma quiet_if {A} (b : bool) (m1 m2 : E A) :
  quiet m1 -> quiet m2 -> quiet (if b then m1 else m2).
Proof. now destruct b. Qed.

#[local] Hint Resolve quiet_ret quiet_raise quiet_stop quiet_of_sum
  quiet_raise_if quiet_read_file quiet_os_path_exists : quiet.

Ltac quiet_steps :=
  repeat first
    [ apply quiet_bind; [|intros ?]
    | apply quiet_try_except; [|intros ?]
    | apply quiet_if
    | apply quiet_emit; reflexivity
    | solve [auto with quiet] ].

Lemma quiet_create_medical_pdf symptoms guide filename :
  quiet (create_medical_pdf symptoms guide filename).
Proof.
  intros w. rewrite create_medical_pdf_run.
  destruct filename as [|c q]; [reflexivity|].
  destruct (fpdf_output_error (c :: q)); simpl.
  - rewrite prompts_sent_shown. now rewrite app_nil_r.
  - reflexivity.
Qed.

Lemma quiet_show_pdf_preview pdf_path : quiet (show_pdf_preview pdf_path).
Proof.
  unfold show_pdf_preview. destruct pdf_path as [[|c p]|]; quiet_steps.
Qed.

Lemma quiet_stream_chunks level chunks :
  forall full_response, quiet (stream_chunks level full_response chunks).
Proof.
  induction chunks as [|chunk chunks IH]; intros full_response; simpl.
  - apply quiet_ret.
  - apply quiet_bind; [apply quiet_emit; reflexivity | intros _; apply IH].
Qed.

Lemma prompts_sent_after_cleanup w tmp_path :
  prompts_sent (after_cleanup w tmp_path) = prompts_sent w.
Proof.
  unfold after_cleanup. destruct tmp_path as [p|]; [|reflexivity].
  destruct (lookup_file p (files w)); [|reflexivity].
  destruct (os_unlink_error p); [|reflexivity].
  rewrite prompts_sent_shown. apply app_nil_r.
Qed.

Lemma quiet_extract_text_from_file uploaded_file :
  quiet (extract_text_from_file uploaded_file).
Proof.
  intros w. rewrite extract_text_from_file_run, extract_try_run.
  destruct tmp_create as [e | name].
  { cbn [snd]. rewrite prompts_sent_after_cleanup, prompts_sent_shown.
    apply app_nil_r. }
  destruct (tmp_write_error (getvalue uploaded_file)).
  { cbn [snd]. rewrite prompts_sent_after_cleanup, prompts_sent_shown.
    apply app_nil_r. }
  destruct (raw_text_of uploaded_file); cbn [snd];
    rewrite prompts_sent_after_cleanup, ?prompts_sent_shown, ?app_nil_r;
    reflexivity.
Qed.

Lemma quiet_scan_flags flags text : quiet (scan_flags flags text).
Proof.
  induction flags as [|[p m] flags IH]; simpl.
  - apply quiet_ret.
  - destruct (re_search p text); [|exact IH].
    unfold st_error. quiet_steps.
Qed.

Lemma quiet_check_red_flags text : quiet (check_red_flags text).
Proof.
  unfold check_red_flags, check_red_flags_with.
  destruct text; [apply quiet_ret | apply quiet_scan_flags].
Qed.

(** The answer of the scanner does not depend on the world it runs in. *)
Lemma check_red_flags_answer text w0 w :
  fst (check_red_flags text w) = fst (check_red_flags text w0).
Proof.
  unfold check_red_flags, check_red_flags_with.
  destruct text as [|c text]; [reflexivity|].
  generalize (lower (c :: text)) as t. intros t.
  induction RED_FLAGS as [|[p m] flags IH]; simpl; [reflexivity|].
  destruct (re_search p t); [reflexivity | exact IH].
Qed.

Lemma check_red_flags_unflagged text w0 :
  fst (check_red_flags text w0) = Return false ->
  forall w, check_red_flags text w = (Return false, w).
Proof.
  intros H w. rewrite (check_red_flags_answer text w w0) in H.
  destruct text as [|c text]; [reflexivity|].
  change (check_red_flags (c :: text) w)
    with (scan_flags RED_FLAGS (lower (c :: text)) w) in *.
  destruct (scan_flags_cases RED_FLAGS (lower (c :: text)) w)
    as [(k & pk & mk & _ & _ & _ & Hrun) | [_ Hrun]].
  - rewrite Hrun in H. discriminate.
  - exact Hrun.
Qed.

Lemma check_red_flags_flagged text w0 :
  fst (check_red_flags text w0) = Return true ->
  forall w, exists message,
    check_red_flags text w = (Return true, flagged_world w message).
Proof.
  intros H w. rewrite (check_red_flags_answer text w w0) in H.
  destruct text as [|c text]; [discriminate|].
  change (check_red_flags (c :: text) w)
    with (scan_flags RED_FLAGS (lower (c :: text)) w) in *.
  destruct (scan_flags_cases RED_FLAGS (lower (c :: text)) w)
    as [(k & pk & mk & _ & _ & _ & Hrun) | [_ Hrun]].
  - now exists mk.
  - rewrite Hrun in H. discriminate.
Qed.

Lemma quiet_generate_rest symptoms selected_level (response : list str * option exn) :
  quiet (full_response <- stream_chunks selected_level [] (fst response) ;;
         raise_if (snd response) ;;
         let guide := join [] full_response in
         pdf_path <- create_medical_pdf symptoms guide medical_summary_pdf ;;
         match pdf_path with
         | Some p =>
             match p with
             | [] => ret tt
             | _ =>
                 st_markdown (lit "---") ;;
                 st_subheader ([128196] ++ lit " PDF Preview") ;;
                 show_pdf_preview pdf_path ;;
                 f <- read_file p ;;
                 emit (StDownloadButton ([128190] ++ lit " Download Full Summary") f
                         medical_summary_pdf pdf_mime)
             end
         | None => ret tt
         end).
Proof.
  apply quiet_bind; [apply quiet_stream_chunks | intros full_response].
  apply quiet_bind; [apply quiet_raise_if | intros _].
  apply quiet_bind; [apply quiet_create_medical_pdf | intros pdf_path].
  destruct pdf_path as [[|c p]|]; try apply quiet_ret.
  unfold st_markdown, st_subheader.
  apply quiet_bind; [apply quiet_emit; reflexivity | intros _].
  apply quiet_bind; [apply quiet_emit; reflexivity | intros _].
  apply quiet_bind; [apply quiet_show_pdf_preview | intros _].
  apply quiet_bind; [apply quiet_read_file | intros f].
  apply quiet_emit; reflexivity.
Qed.

(** The generation step hands exactly one prompt to the generator. *)
Lemma generate_guide_prompts specialty symptoms level w :
  prompts_sent (snd (generate_guide specialty symptoms level w))
  = prompts_sent w ++ [prompt specialty symptoms level].
Proof.
  unfold generate_guide.
  set (p := prompt specialty symptoms level).
  change (bind (emit (GenerateContent (lit "gemini-1.5-flash") p)) ?k w)
    with (k tt (shown w (GenerateContent (lit "gemini-1.5-flash") p))).
  cbv beta.
  assert (Hq : quiet (response <- of_sum (generate_stream p) ;;
                      full_response <- stream_chunks level [] (fst response) ;;
                      raise_if (snd response) ;;
                      let guide := join [] full_response in
                      pdf_path <- create_medical_pdf symptoms guide medical_summary_pdf ;;
                      match pdf_path with
                      | Some p =>
                          match p with
                          | [] => ret tt
                          | _ =>
                              st_markdown (lit "---") ;;
                              st_subheader ([128196] ++ lit " PDF Preview") ;;
                              show_pdf_preview pdf_path ;;
                              f <- read_file p ;;
                              emit (StDownloadButton
                                      ([128190] ++ lit " Download Full Summary") f
                                      medical_summary_pdf pdf_mime)
                          end
                      | None => ret tt
                      end)).
  { apply quiet_bind; [apply quiet_of_sum | intros response].
    apply quiet_generate_rest. }
  rewrite Hq. apply prompts_sent_shown.
Qed.
End ScriptFacts.

Section ScriptRuns.
Context {U : UnicodeData} {Env : Environment}.

Lemma bind_emit {B} e (k : unit -> E B) w :
  bind (emit e) k w = k tt (shown w e).
Proof. reflexivity. Qed.

Lemma bind_ret {A B} (a : A) (k : A -> E B) w : bind (ret a) k w = k a w.
Proof. reflexivity. Qed.

Lemma bind_eval {A B} (m : E A) (k : A -> E B) w a w' :
  m w = (Return a, w') -> bind m k w = k a w'.
Proof. unfold bind. now intros ->. Qed.

Lemma bind_stop {A B} (m : E A) (k : A -> E B) w w' :
  m w = (ScriptStop, w') -> bind m k w = (ScriptStop, w').
Proof. unfold bind. now intros ->. Qed.

Lemma prompts_bind_quiet {A B} (m : E A) (k : A -> E B) w :
  (forall a, quiet (k a)) ->
  prompts_sent (snd (bind m k w)) = prompts_sent (snd (m w)).
Proof.
  intros Hk. unfold bind.
  destruct (m w) as [[a | e |] w']; simpl; [apply Hk | reflexivity | reflexivity].
Qed.

Lemma prompts_try_except {A} (m : E A) h w :
  (forall e, quiet (h e)) ->
  prompts_sent (snd (try_except m h w)) = prompts_sent (snd (m w)).
Proof.
  intros Hh. unfold try_except.
  destruct (m w) as [[a | e |] w']; simpl; [reflexivity | apply Hh | reflexivity].
Qed.

Lemma prompts_sent_greeted w : prompts_sent (greeted w) = prompts_sent w.
Proof.
  unfold greeted. rewrite !prompts_sent_shown. now rewrite !app_nil_r.
Qed.

(** The last two lines of the script. *)
Lemma quiet_footer (x : unit) :
  quiet (st_markdown (lit "---") ;;
         st_caption (lit "Built with " ++ [10084; 65039] ++ lit " for patient education")).
Proof.
  unfold st_markdown, st_caption.
  apply quiet_bind; [apply quiet_emit; reflexivity | intros _].
  apply quiet_emit; reflexivity.
Qed.

Lemma on_button_prompts i symptoms level w :
  generate_clicked i = true -> symptoms <> [] ->
  prompts_sent (snd (on_button i symptoms level w))
  = prompts_sent w ++ [prompt (doctor_specialty i) symptoms level].
Proof.
  intros Hc Hne. unfold on_button. rewrite Hc.
  destruct symptoms as [|c s]; [congruence|].
  unfold st_spinner. rewrite bind_emit.
  rewrite prompts_try_except.
  - rewrite generate_guide_prompts, prompts_sent_shown. now rewrite app_nil_r.
  - intros e. apply quiet_emit. reflexivity.
Qed.

Lemma extract_text_from_file_returns uploaded_file w :
  fst (extract_text_from_file uploaded_file w)
  = Return (extracted_text uploaded_file).
Proof.
  rewrite extract_text_from_file_run, extract_try_run. unfold extracted_text.
  destruct tmp_create; [reflexivity|].
  destruct (tmp_write_error (getvalue uploaded_file)); [reflexivity|].
  destruct (raw_text_of uploaded_file); reflexivity.
Qed.

(** The script from the file uploader on, as the source nests it. *)
Lemma main_unfold i w :
  main i w
  = (selected_level <- subscript grade_levels (reading_level i) ;;
     symptoms <-
       match uploaded_file i with
       | Some file =>
           extracted_text <- extract_text_from_file file ;;
           match extracted_text with
           | [] => ret (symptoms_area i)
           | _ =>
               st_success ([128196] ++ lit " Extracted Text Preview:") ;;
               st_text_area (lit "Extracted Content") extracted_text ;;
               flagged <- check_red_flags extracted_text ;;
               (if flagged : bool then st_stop else ret tt) ;;
               ret extracted_text
           end
       | None =>
           match symptoms_area i with
           | [] => ret (symptoms_area i)
           | _ =>
               flagged <- check_red_flags (symptoms_area i) ;;
               (if flagged : bool then st_stop else ret tt) ;;
               ret (symptoms_area i)
           end
       end ;;
     on_button i symptoms selected_level ;;
     st_markdown (lit "---") ;;
     st_caption (lit "Built with " ++ [10084; 65039] ++ lit " for patient education"))
      (greeted w).
Proof. reflexivity. Qed.

Lemma subscript_found k level w :
  dict_get grade_levels k = Some level ->
  subscript grade_levels k w = (Return level, w).
Proof. unfold subscript. now intros ->. Qed.

(** Typed text that the scanner flags: the script stops, nothing reaches
    the generator. *)
Lemma main_halts_on_flagged_typed_text i w level :
  dict_get grade_levels (reading_level i) = Some level ->
  uploaded_file i = None ->
  fst (check_red_flags (symptoms_area i) empty_world) = Return true ->
  fst (main i w) = ScriptStop
  /\ prompts_sent (snd (main i w)) = prompts_sent w.
Proof.
  intros Hl Hu Hf. rewrite main_unfold.
  rewrite (bind_eval _ _ _ _ _ (subscript_found _ _ _ Hl)). rewrite Hu.
  destruct (check_red_flags_flagged _ _ Hf (greeted w)) as [message Hrun].
  destruct (symptoms_area i) as [|c s] eqn:Hs; [discriminate|].
  erewrite bind_stop.
  2:{ unfold bind at 1. rewrite Hrun. reflexivity. }
  split; [reflexivity|]. cbn [snd].
  rewrite prompts_sent_flagged. apply prompts_sent_greeted.
Qed.

(** Extracted text that the scanner flags: the same. *)
Lemma main_halts_on_flagged_extracted_text i w level file :
  dict_get grade_levels (reading_level i) = Some level ->
  uploaded_file i = Some file ->
  fst (check_red_flags (extracted_text file) empty_world) = Return true ->
  fst (main i w) = ScriptStop
  /\ prompts_sent (snd (main i w)) = prompts_sent w.
Proof.
  intros Hl Hu Hf. rewrite main_unfold.
  rewrite (bind_eval _ _ _ _ _ (subscript_found _ _ _ Hl)). rewrite Hu.
  pose proof (extract_text_from_file_returns file (greeted w)) as Hx.
  pose proof (quiet_extract_text_from_file file (greeted w)) as Hq.
  destruct (extract_text_from_file file (greeted w)) as [r w1] eqn:Hrun.
  simpl in Hx, Hq. subst r.
  destruct (extracted_text file) as [|c s] eqn:Hs; [discriminate|].
  destruct (check_red_flags_flagged _ _ Hf
              (shown (shown w1 (StSuccess ([128196] ++ lit " Extracted Text Preview:")))
                     (StTextArea (lit "Extracted Content") (c :: s))))
    as [message Hcheck].
  erewrite bind_stop.
  2:{ rewrite (bind_eval _ _ _ _ _ Hrun).
      unfold st_success, st_text_area. rewrite !bind_emit.
      unfold bind at 1. rewrite Hcheck. reflexivity. }
  split; [reflexivity|]. cbn [snd].
  rewrite prompts_sent_flagged, !prompts_sent_shown, !app_nil_r, Hq.
  apply prompts_sent_greeted.
Qed.

(** An upload that yields no text leaves the typed text in [symptoms]
    without scanning it: the button sends it to the generator, flagged or
    not. *)
Lemma main_skips_scan_when_extraction_is_empty i w level file :
  dict_get grade_levels (reading_level i) = Some level ->
  uploaded_file i = Some file ->
  extracted_text file = [] ->
  symptoms_area i <> [] ->
  generate_clicked i = true ->
  prompts_sent (snd (main i w))
  = prompts_sent w ++ [prompt (doctor_specialty i) (symptoms_area i) level].
Proof.
  intros Hl Hu Hx Hne Hc. rewrite main_unfold.
  rewrite (bind_eval _ _ _ _ _ (subscript_found _ _ _ Hl)). rewrite Hu.
  pose proof (extract_text_from_file_returns file (greeted w)) as Hr.
  pose proof (quiet_extract_text_from_file file (greeted w)) as Hq.
  destruct (extract_text_from_file file (greeted w)) as [r w1] eqn:Hrun.
  simpl in Hr, Hq. subst r. rewrite Hx in Hrun.
  erewrite bind_eval.
  2:{ rewrite (bind_eval _ _ _ _ _ Hrun). reflexivity. }
  rewrite prompts_bind_quiet by apply quiet_footer.
  rewrite on_button_prompts by assumption.
  now rewrite Hq, prompts_sent_greeted.
Qed.
End ScriptRuns.

Section ScriptClaims.
Context {U : UnicodeData} {Env : Environment}.

Lemma occurs_in_intro needle hay before after :
  hay = before ++ needle ++ after -> occurs_in needle hay.
Proof. intros ->. now exists before, after. Qed.

(** Typed text that the scanner does not flag goes on unchanged. *)
Lemma typed_text_passes text w :
  fst (check_red_flags text empty_world) = Return false ->
  match text with
  | [] => ret text
  | _ =>
      flagged <- check_red_flags text ;;
      (if flagged : bool then st_stop else ret tt) ;;
      ret text
  end w = (Return text, w).
Proof.
  intros Hf. destruct text as [|c s]; [reflexivity|].
  unfold bind at 1. now rewrite (check_red_flags_unflagged _ _ Hf).
Qed.

(** C7.  Typed symptom text that the scanner does not flag, the specialty
    "General Practitioner", reading level 3 and a click on the button: the
    script hands the generator exactly one prompt, the instruction string
    built from these values, and that string contains the symptom text
    verbatim, the specialty name, the label "9th grade" -- the label the
    fixed table gives for level 3 -- and the three section headers. *)
Theorem prompt_for_unflagged_text (i : inputs) (w : world) :
  uploaded_file i = None ->
  symptoms_area i <> [] ->
  fst (check_red_flags (symptoms_area i) empty_world) = Return false ->
  doctor_specialty i = lit "General Practitioner" ->
  reading_level i = 3 ->
  generate_clicked i = true ->
  let instruction :=
    prompt (lit "General Practitioner") (symptoms_area i) (lit "9th grade") in
  prompts_sent (snd (main i w)) = prompts_sent w ++ [instruction]
  /\ occurs_in (symptoms_area i) instruction
  /\ occurs_in (lit "General Practitioner") instruction
  /\ occurs_in (lit "9th grade") instruction
  /\ occurs_in (lit "Possible causes") instruction
  /\ occurs_in (lit "priority questions for the doctor") instruction
  /\ occurs_in (lit "Appointment preparation tips") instruction
  /\ map (dict_get grade_levels) [1; 2; 3; 4; 5]
     = [Some (lit "5th grade"); Some (lit "7th grade"); Some (lit "9th grade");
        Some (lit "11th grade"); Some (lit "College level")].
Proof.
  intros Hu Hne Hf Hd Hl Hc instruction. split.
  - rewrite main_unfold, Hl.
    rewrite (bind_eval _ _ _ _ _ (subscript_found 3 (lit "9th grade") _ eq_refl)).
    rewrite Hu.
    rewrite (bind_eval _ _ _ _ _ (typed_text_passes _ _ Hf)).
    rewrite prompts_bind_quiet by apply quiet_footer.
    rewrite on_button_prompts by assumption.
    now rewrite prompts_sent_greeted, Hd.
  - subst instruction. generalize (symptoms_area i) as symptoms.
    intros symptoms. unfold prompt. repeat split.
    + apply (occurs_in_intro _ _
        ([LF] ++ INDENT
           ++ lit "You are a health assistant for patients seeing a General Practitioner."
           ++ [LF] ++ INDENT ++ lit "Given these symptoms: ")
        ([LF] ++ INDENT ++ [LF] ++ INDENT
           ++ lit "Create a guide at 9th grade reading level:" ++ [LF]
           ++ INDENT ++ lit "1. Possible causes (plain language, no diagnosis)" ++ [LF]
           ++ INDENT ++ lit "2. 5 priority questions for the doctor" ++ [LF]
           ++ INDENT ++ lit "3. Appointment preparation tips" ++ [LF]
           ++ INDENT ++ [LF]
           ++ INDENT ++ lit "Rules:" ++ [LF]
           ++ INDENT ++ lit "- Use bullet points" ++ [LF]
           ++ INDENT ++ lit "- For level 1-2: Max 1-2 syllable words" ++ [LF]
           ++ INDENT ++ lit "- For level 3-4: May include medical terms with explanations" ++ [LF]
           ++ INDENT ++ lit "- Never suggest treatments" ++ [LF]
           ++ INDENT ++ lit "- Use only standard ASCII characters" ++ [LF]
           ++ INDENT)).
      reflexivity.
    + apply (occurs_in_intro _ _
        ([LF] ++ INDENT ++ lit "You are a health assistant for patients seeing a ")
        (lit "." ++ [LF] ++ INDENT ++ lit "Given these symptoms: " ++ symptoms
           ++ [LF] ++ INDENT ++ [LF] ++ INDENT
           ++ lit "Create a guide at 9th grade reading level:" ++ [LF]
           ++ INDENT ++ lit "1. Possible causes (plain language, no diagnosis)" ++ [LF]
           ++ INDENT ++ lit "2. 5 priority questions for the doctor" ++ [LF]
           ++ INDENT ++ lit "3. Appointment preparation tips" ++ [LF]
           ++ INDENT ++ [LF]
           ++ INDENT ++ lit "Rules:" ++ [LF]
           ++ INDENT ++ lit "- Use bullet points" ++ [LF]
           ++ INDENT ++ lit "- For level 1-2: Max 1-2 syllable words" ++ [LF]
           ++ INDENT ++ lit "- For level 3-4: May include medical terms with explanations" ++ [LF]
           ++ INDENT ++ lit "- Never suggest treatments" ++ [LF]
           ++ INDENT ++ lit "- Use only standard ASCII characters" ++ [LF]
           ++ INDENT)).
      reflexivity.
    + apply (occurs_in_intro _ _
        ([LF] ++ INDENT
           ++ lit "You are a health assistant for patients seeing a General Practitioner."
           ++ [LF] ++ INDENT ++ lit "Given these symptoms: " ++ symptoms
           ++ [LF] ++ INDENT ++ [LF] ++ INDENT ++ lit "Create a guide at ")
        (lit " reading level:" ++ [LF]
           ++ INDENT ++ lit "1. Possible causes (plain language, no diagnosis)" ++ [LF]
           ++ INDENT ++ lit "2. 5 priority questions for the doctor" ++ [LF]
           ++ INDENT ++ lit "3. Appointment preparation tips" ++ [LF]
           ++ INDENT ++ [LF]
           ++ INDENT ++ lit "Rules:" ++ [LF]
           ++ INDENT ++ lit "- Use bullet points" ++ [LF]
           ++ INDENT ++ lit "- For level 1-2: Max 1-2 syllable words" ++ [LF]
           ++ INDENT ++ lit "- For level 3-4: May include medical terms with explanations" ++ [LF]
           ++ INDENT ++ lit "- Never suggest treatments" ++ [LF]
           ++ INDENT ++ lit "- Use only standard ASCII characters" ++ [LF]
           ++ INDENT)).
      rewrite <- !app_assoc. reflexivity.
    + apply (occurs_in_intro _ _
        ([LF] ++ INDENT
           ++ lit "You are a health assistant for patients seeing a General Practitioner."
           ++ [LF] ++ INDENT ++ lit "Given these symptoms: " ++ symptoms
           ++ [LF] ++ INDENT ++ [LF] ++ INDENT
           ++ lit "Create a guide at 9th grade reading level:" ++ [LF]
           ++ INDENT ++ lit "1. ")
        (lit " (plain language, no diagnosis)" ++ [LF]
           ++ INDENT ++ lit "2. 5 priority questions for the doctor" ++ [LF]
           ++ INDENT ++ lit "3. Appointment preparation tips" ++ [LF]
           ++ INDENT ++ [LF]
           ++ INDENT ++ lit "Rules:" ++ [LF]
           ++ INDENT ++ lit "- Use bullet points" ++ [LF]
           ++ INDENT ++ lit "- For level 1-2: Max 1-2 syllable words" ++ [LF]
           ++ INDENT ++ lit "- For level 3-4: May include medical terms with explanations" ++ [LF]
           ++ INDENT ++ lit "- Never suggest treatments" ++ [LF]
           ++ INDENT ++ lit "- Use only standard ASCII characters" ++ [LF]
           ++ INDENT)).
      rewrite <- !app_assoc. reflexivity.
    + apply (occurs_in_intro _ _
        ([LF] ++ INDENT
           ++ lit "You are a health assistant for patients seeing a General Practitioner."
           ++ [LF] ++ INDENT ++ lit "Given these symptoms: " ++ symptoms
           ++ [LF] ++ INDENT ++ [LF] ++ INDENT
           ++ lit "Create a guide at 9th grade reading level:" ++ [LF]
           ++ INDENT ++ lit "1. Possible causes (plain language, no diagnosis)" ++ [LF]
           ++ INDENT ++ lit "2. 5 ")
        ([LF]
           ++ INDENT ++ lit "3. Appointment preparation tips" ++ [LF]
           ++ INDENT ++ [LF]
           ++ INDENT ++ lit "Rules:" ++ [LF]
           ++ INDENT ++ lit "- Use bullet points" ++ [LF]
           ++ INDENT ++ lit "- For level 1-2: Max 1-2 syllable words" ++ [LF]
           ++ INDENT ++ lit "- For level 3-4: May include medical terms with explanations" ++ [LF]
           ++ INDENT ++ lit "- Never suggest treatments" ++ [LF]
           ++ INDENT ++ lit "- Use only standard ASCII characters" ++ [LF]
           ++ INDENT)).
      rewrite <- !app_assoc. reflexivity.
    + apply (occurs_in_intro _ _
        ([LF] ++ INDENT
           ++ lit "You are a health assistant for patients seeing a General Practitioner."
           ++ [LF] ++ INDENT ++ lit "Given these symptoms: " ++ symptoms
           ++ [LF] ++ INDENT ++ [LF] ++ INDENT
           ++ lit "Create a guide at 9th grade reading level:" ++ [LF]
           ++ INDENT ++ lit "1. Possible causes (plain language, no diagnosis)" ++ [LF]
           ++ INDENT ++ lit "2. 5 priority questions for the doctor" ++ [LF]
           ++ INDENT ++ lit "3. ")
        ([LF]
           ++ INDENT ++ [LF]
           ++ INDENT ++ lit "Rules:" ++ [LF]
           ++ INDENT ++ lit "- Use bullet points" ++ [LF]
           ++ INDENT ++ lit "- For level 1-2: Max 1-2 syllable words" ++ [LF]
           ++ INDENT ++ lit "- For level 3-4: May include medical terms with explanations" ++ [LF]
           ++ INDENT ++ lit "- Never suggest treatments" ++ [LF]
           ++ INDENT ++ lit "- Use only standard ASCII characters" ++ [LF]
           ++ INDENT)).
      rewrite <- !app_assoc. reflexivity.
Qed.
End ScriptClaims.

Lemma prompt_for_unflagged_text_witness :
  let i := mkInputs 3 (lit "General Practitioner") None
                    (lit "I have a mild headache for two days") true in
  let instruction :=
    prompt (lit "General Practitioner") (lit "I have a mild headache for two days")
           (lit "9th grade") in
  prompts_sent (snd (@main sample_unicode sample_env i empty_world))
  = prompts_sent empty_world ++ [instruction]
  /\ occurs_in (lit "I have a mild headache for two days") instruction
  /\ occurs_in (lit "General Practitioner") instruction
  /\ occurs_in (lit "9th grade") instruction
  /\ occurs_in (lit "Possible causes") instruction
  /\ occurs_in (lit "priority questions for the doctor") instruction
  /\ occurs_in (lit "Appointment preparation tips") instruction
  /\ map (dict_get grade_levels) [1; 2; 3; 4; 5]
     = [Some (lit "5th grade"); Some (lit "7th grade"); Some (lit "9th grade");
        Some (lit "11th grade"); Some (lit "College level")].
Proof.
  apply (@prompt_for_unflagged_text sample_unicode sample_env
           (mkInputs 3 (lit "General Practitioner") None
                     (lit "I have a mild headache for two days") true)
           empty_world).
  - reflexivity.
  - discriminate.
  - reflexivity.
  - reflexivity.
  - reflexivity.
  - reflexivity.
Defined.

(** C1, at the input where it fails.  A blank file is uploaded, "I have
    chest pain" is typed and the button is clicked.  The scanner would flag
    the typed text, but the script, having found an upload, does not scan
    it: the run completes without [st.stop()] and the generator receives a
    prompt built from the typed text. *)
Theorem typed_hazard_reaches_generator_after_blank_upload :
  let i := mkInputs 3 (lit "General Practitioner") (Some blank_upload)
                    (lit "I have chest pain") true in
  fst (@check_red_flags sample_unicode (lit "I have chest pain") empty_world)
  = Return true
  /\ fst (@main sample_unicode sample_env i empty_world) = Return tt
  /\ prompts_sent (snd (@main sample_unicode sample_env i empty_world))
     = [prompt (lit "General Practitioner") (lit "I have chest pain")
               (lit "9th grade")].
Proof. repeat split. Qed.

(** The same happens when the upload is a PDF the parser rejects. *)
Example typed_hazard_reaches_generator_after_corrupt_upload :
  prompts_sent
    (snd (@main sample_unicode corrupt_pdf_env
            (mkInputs 3 (lit "General Practitioner")
                      (Some (mkUpload pdf_mime (lit "%PDF-1.4 truncated")))
                      (lit "I have chest pain") true)
            empty_world))
  = [prompt (lit "General Practitioner") (lit "I have chest pain") (lit "9th grade")].
Proof. reflexivity. Qed.

(** * Further properties of the extraction *)

Section ExtractionMore.
Context {U : UnicodeData} {Env : Environment}.

Lemma str_eqb_eq a b : str_eqb a b = true <-> a = b.
Proof. unfold str_eqb. destruct (list_eq_dec N.eq_dec a b); split; congruence. Qed.

Lemma str_eqb_neq a b : a <> b -> str_eqb a b = false.
Proof.
  intros H. destruct (str_eqb a b) eqn:E; [|reflexivity].
  apply str_eqb_eq in E. contradiction.
Qed.

Lemma lookup_file_other p name c fs :
  p <> name -> lookup_file p ((name, c) :: fs) = lookup_file p fs.
Proof.
  intros H. unfold lookup_file. simpl.
  rewrite (str_eqb_neq name p) by congruence. reflexivity.
Qed.

Lemma lookup_file_remove_other p name fs :
  p <> name -> lookup_file p (remove_file name fs) = lookup_file p fs.
Proof.
  intros H. unfold lookup_file, remove_file.
  induction fs as [|[q c] fs IH]; simpl; [reflexivity|].
  destruct (str_eqb q name) eqn:Eq; simpl.
  - apply str_eqb_eq in Eq. subst q.
    rewrite (str_eqb_neq name p) by congruence. exact IH.
  - destruct (str_eqb q p); [reflexivity | exact IH].
Qed.

Lemma remove_file_absent name fs :
  lookup_file name fs = None -> remove_file name fs = fs.
Proof.
  unfold lookup_file, remove_file.
  induction fs as [|[q c] fs IH]; simpl; [reflexivity|].
  destruct (str_eqb q name); simpl; [discriminate|].
  intros H. now rewrite IH.
Qed.

(** The [finally] block touches no file but the temporary one. *)
Lemma after_cleanup_other p w tmp_path :
  (forall name, tmp_path = Some name -> p <> name) ->
  lookup_file p (files (after_cleanup w tmp_path)) = lookup_file p (files w).
Proof.
  intros Hp. unfold after_cleanup. destruct tmp_path as [name|]; [|reflexivity].
  destruct (lookup_file name (files w)); [|reflexivity].
  destruct (os_unlink_error name); [reflexivity|]. cbn [files].
  apply lookup_file_remove_other. now apply Hp.
Qed.

Lemma with_file_other p w name c :
  p <> name -> lookup_file p (files (with_file w name c)) = lookup_file p (files w).
Proof.
  intros Hp. unfold with_file. cbn [files].
  now rewrite lookup_file_other, lookup_file_remove_other.
Qed.

(** X1.  The call returns normally in every environment -- it never raises
    and never stops the script, not even when the unlinking fails -- and
    what it returns is all or nothing: the cleaned text of the whole
    document, or the empty string. *)
Theorem extraction_returns_all_or_nothing
    (uploaded_file : UploadedFile) (w : world) :
  exists text w',
    extract_text_from_file uploaded_file w = (Return text, w')
    /\ (text = []
        \/ exists raw_text,
             raw_text_of uploaded_file = inr raw_text
             /\ text = clean_text raw_text).
Proof.
  rewrite extract_text_from_file_run, extract_try_run.
  destruct tmp_create as [e | name].
  { eexists _, _. split; [reflexivity | now left]. }
  destruct (tmp_write_error (getvalue uploaded_file)).
  { eexists _, _. split; [reflexivity | now left]. }
  destruct (raw_text_of uploaded_file) as [e | raw_text].
  - eexists _, _. split; [reflexivity | now left].
  - eexists _, _. split; [reflexivity | right; now exists raw_text].
Qed.

(** X2.  Whatever happens during the call, a file other than the temporary
    one is left as it was: same presence, same content. *)
Theorem extraction_leaves_other_files
    (uploaded_file : UploadedFile) (w : world) (p : str) :
  (forall name, tmp_create = inr name -> p <> name) ->
  lookup_file p (files (snd (extract_text_from_file uploaded_file w)))
  = lookup_file p (files w).
Proof.
  intros Hp. rewrite extract_text_from_file_run, extract_try_run.
  destruct tmp_create as [e | name] eqn:Hc; [reflexivity|].
  specialize (Hp name eq_refl).
  destruct (tmp_write_error (getvalue uploaded_file)).
  { cbn [snd]. rewrite after_cleanup_other.
    - unfold shown. cbn [files]. now apply with_file_other.
    - intros name'. destruct (tmp_write_deferred (getvalue uploaded_file));
        [now intros [= <-] | discriminate]. }
  destruct (raw_text_of uploaded_file); cbn [snd];
    (rewrite after_cleanup_other; [|now intros name' [= <-]]);
    unfold shown; cbn [files]; now apply with_file_other.
Qed.

(** X3.  When the temporary name is fresh, the upload can be written and
    the file can be unlinked, the call leaves the file system exactly as it
    found it, whether the document could be parsed or not. *)
Theorem extraction_restores_file_system
    (uploaded_file : UploadedFile) (w : world) (name : str) :
  tmp_create = inr name ->
  lookup_file name (files w) = None ->
  tmp_write_error (getvalue uploaded_file) = None ->
  os_unlink_error name = None ->
  files (snd (extract_text_from_file uploaded_file w)) = files w.
Proof.
  intros Hc Hfresh Hw Hu.
  rewrite extract_text_from_file_run, extract_try_run, Hc, Hw.
  destruct (raw_text_of uploaded_file);
    unfold after_cleanup, shown, with_file; cbn [files screen snd];
    rewrite lookup_file_head, Hu; cbn [files];
    rewrite remove_file_head, remove_file_twice;
    now apply remove_file_absent.
Qed.

(** X20.  When the failure to store the upload shows only as the [with]
    block closes the file -- [tmp.write] had returned, so [tmp_path] is
    bound -- the call returns the empty string with the error message and
    the [finally] block does find the file: it is unlinked, or, if the
    unlinking fails too, it stays with what had been written and the
    warning follows the error message. *)
Theorem deferred_write_failure_releases_temp_file
    (uploaded_file : UploadedFile) (w : world) (name : str) (e : exn) :
  tmp_create = inr name ->
  tmp_write_error (getvalue uploaded_file) = Some e ->
  tmp_write_deferred (getvalue uploaded_file) = true ->
  let after := snd (extract_text_from_file uploaded_file w) in
  fst (extract_text_from_file uploaded_file w) = Return []
  /\ match os_unlink_error name with
     | None =>
         lookup_file name (files after) = None
         /\ screen after
            = screen w ++ [StError (lit "Error reading file: " ++ e)]
     | Some e' =>
         lookup_file name (files after)
         = Some (Bytes (partly_written (getvalue uploaded_file)))
         /\ screen after
            = screen w
              ++ [StError (lit "Error reading file: " ++ e);
                  StWarning (lit "Couldn't delete temp file: " ++ e')]
     end.
Proof.
  intros Hc Hw Hd after. subst after.
  rewrite extract_text_from_file_run, extract_try_run, Hc, Hw, Hd.
  split; [reflexivity|].
  unfold after_cleanup, shown, with_file. cbn [files screen snd].
  rewrite lookup_file_head.
  destruct (os_unlink_error name) as [e'|]; cbn [files screen snd].
  - split; [apply lookup_file_head | now rewrite <- app_assoc].
  - split; [|reflexivity]. rewrite remove_file_head. apply lookup_file_removed.
Qed.
End ExtractionMore.

Lemma deferred_write_failure_releases_temp_file_witness :
  let upload := mkUpload text_plain (lit "mild headache") in
  let after :=
    snd (@extract_text_from_file sample_unicode disk_full_env upload empty_world) in
  fst (@extract_text_from_file sample_unicode disk_full_env upload empty_world)
  = Return []
  /\ lookup_file (lit "/tmp/tmpk3v9x1") (files after) = None
  /\ screen after
     = screen empty_world
       ++ [StError (lit "Error reading file: "
                    ++ lit "[Errno 28] No space left on device")].
Proof.
  apply (@deferred_write_failure_releases_temp_file sample_unicode disk_full_env
           (mkUpload text_plain (lit "mild headache")) empty_world
           (lit "/tmp/tmpk3v9x1") (lit "[Errno 28] No space left on device"));
    reflexivity.
Defined.

Lemma extraction_leaves_other_files_witness :
  lookup_file (lit "medical_summary.pdf")
    (files (snd (@extract_text_from_file sample_unicode unlink_denied_env
                   (mkUpload pdf_mime (lit "%PDF-1.4"))
                   (mkWorld [(lit "medical_summary.pdf", PdfDocument [AddPage])] []))))
  = lookup_file (lit "medical_summary.pdf")
      (files (mkWorld [(lit "medical_summary.pdf", PdfDocument [AddPage])] [])).
Proof.
  apply (@extraction_leaves_other_files sample_unicode unlink_denied_env).
  intros name Hname. injection Hname as <-. discriminate.
Defined.

Lemma extraction_restores_file_system_witness :
  files (snd (@extract_text_from_file sample_unicode corrupt_pdf_env
                (mkUpload pdf_mime (lit "%PDF-1.4"))
                (mkWorld [(lit "medical_summary.pdf", PdfDocument [AddPage])] [])))
  = files (mkWorld [(lit "medical_summary.pdf", PdfDocument [AddPage])] []).
Proof.
  apply (@extraction_restores_file_system sample_unicode corrupt_pdf_env
           (mkUpload pdf_mime (lit "%PDF-1.4"))
           (mkWorld [(lit "medical_summary.pdf", PdfDocument [AddPage])] [])
           (lit "/tmp/tmpk3v9x1")); reflexivity.
Defined.

Section CleanShape.
Context {U : UnicodeData} {Env : Environment}.

Lemma ends_with_space_app a c b :
  ends_with_space (a ++ c :: b) = ends_with_space (c :: b).
Proof. unfold ends_with_space, last_error. now rewrite last_after_app. Qed.

Lemma ends_with_space_cons2 x y a :
  ends_with_space (x :: y :: a) = ends_with_space (y :: a).
Proof. apply (ends_with_space_app [x]). Qed.

Lemma adjacent_spaces_app a b :
  adjacent_spaces (a ++ b)
  = adjacent_spaces a || adjacent_spaces b
    || (ends_with_space a && starts_with_space b).
Proof.
  induction a as [|x a IH]; [simpl; now rewrite orb_false_r|].
  destruct a as [|y a].
  - destruct b as [|z b]; [cbn; now rewrite andb_false_r|]. cbn.
    now rewrite orb_comm.
  - change (adjacent_spaces ((x :: y :: a) ++ b))
      with ((isspace x && isspace y) || adjacent_spaces ((y :: a) ++ b)).
    rewrite IH, ends_with_space_cons2.
    change (adjacent_spaces (x :: y :: a))
      with ((isspace x && isspace y) || adjacent_spaces (y :: a)).
    now rewrite !orb_assoc.
Qed.

Lemma word_no_space u c :
  forallb (fun c => negb (isspace c)) u = true -> In c u -> isspace c = false.
Proof.
  intros Hu Hc. rewrite forallb_forall in Hu.
  now apply negb_true_iff, Hu.
Qed.

Lemma word_adjacent_spaces u :
  forallb (fun c => negb (isspace c)) u = true -> adjacent_spaces u = false.
Proof.
  induction u as [|a u IH]; [reflexivity|]. intros H.
  simpl in H. apply andb_true_iff in H as [Ha Hu].
  destruct u as [|b u]; [reflexivity|].
  change (adjacent_spaces (a :: b :: u))
    with ((isspace a && isspace b) || adjacent_spaces (b :: u)).
  rewrite (IH Hu). apply negb_true_iff in Ha. now rewrite Ha.
Qed.

Lemma word_ends u :
  is_word u -> ends_with_space u = false.
Proof.
  intros [Hne Hu]. destruct (exists_last Hne) as (u' & c & ->).
  rewrite ends_with_space_app. unfold ends_with_space. simpl.
  apply (word_no_space _ c Hu). apply in_or_app. right. now left.
Qed.

Lemma word_starts u rest :
  is_word u -> starts_with_space (u ++ rest) = false.
Proof.
  intros [Hne Hu]. destruct u as [|c u]; [congruence|]. simpl.
  apply (word_no_space _ c Hu). now left.
Qed.

(** Words joined by single spaces: no white space at either end, no two
    white-space characters in a row, no white space other than the space. *)
Lemma join_words_shape ws :
  Forall is_word ws ->
  starts_with_space (join [SPACE] ws) = false
  /\ ends_with_space (join [SPACE] ws) = false
  /\ adjacent_spaces (join [SPACE] ws) = false
  /\ forallb (fun c => negb (isspace c) || (c =? SPACE)) (join [SPACE] ws) = true.
Proof.
  induction 1 as [|u ws Hu Hws (IH1 & IH2 & IH3 & IH4)]; [now repeat split|].
  rewrite join_cons. pose proof Hu as [Hne Hns].
  assert (Hch : forallb (fun c => negb (isspace c) || (c =? SPACE)) u = true).
  { rewrite forallb_forall in *. intros c Hc. now rewrite (Hns c Hc). }
  destruct ws as [|v ws'].
  - rewrite app_nil_r. repeat split.
    + rewrite <- (app_nil_r u). now apply word_starts.
    + now apply word_ends.
    + now apply word_adjacent_spaces.
    + exact Hch.
  - set (J := join [SPACE] (v :: ws')) in *. repeat split.
    + now apply word_starts.
    + rewrite ends_with_space_app.
      destruct J as [|c J'] eqn:EJ.
      * subst J. apply join_words_nil in EJ; [discriminate | exact Hws].
      * rewrite ends_with_space_cons2. exact IH2.
    + rewrite adjacent_spaces_app, (word_adjacent_spaces u Hns), (word_ends u Hu).
      simpl orb.
      destruct J as [|c J'].
      * reflexivity.
      * change (adjacent_spaces (SPACE :: c :: J'))
          with ((isspace SPACE && isspace c) || adjacent_spaces (c :: J')).
        rewrite IH3. simpl in IH1. now rewrite IH1.
    + rewrite forallb_app, Hch. simpl. exact IH4.
Qed.

(** X4.  The text the call returns is tidy in every case: it neither
    starts nor ends with white space, never has two white-space characters
    in a row, and its only white-space character is the plain space -- no
    line break, tab or other separator survives. *)
Theorem extracted_text_is_tidy (uploaded_file : UploadedFile) (w : world) :
  exists text,
    fst (extract_text_from_file uploaded_file w) = Return text
    /\ starts_with_space text = false
    /\ ends_with_space text = false
    /\ adjacent_spaces text = false
    /\ forallb (fun c => negb (isspace c) || (c =? SPACE)) text = true.
Proof.
  exists (extracted_text uploaded_file).
  split; [apply extract_text_from_file_returns|].
  unfold extracted_text.
  destruct tmp_create; [now repeat split|].
  destruct (tmp_write_error (getvalue uploaded_file)); [now repeat split|].
  destruct (raw_text_of uploaded_file) as [e | raw_text]; [now repeat split|].
  rewrite clean_text_words. apply join_words_shape, words_are_words.
Qed.

Lemma cons_word_app w ws more :
  cons_word w (ws ++ more) = cons_word w ws ++ more.
Proof. now destruct w. Qed.

Lemma words_from_sep a sp b :
  isspace sp = true ->
  words_from (a ++ sp :: b)
  = (fst (words_from a), snd (words_from a) ++ words b).
Proof.
  intros Hsp. induction a as [|c a IH].
  - simpl. rewrite Hsp. unfold words. now destruct (words_from b).
  - simpl. rewrite IH. destruct (words_from a) as [w ws]. simpl.
    destruct (isspace c); [now rewrite cons_word_app | reflexivity].
Qed.

(** A white-space character between two texts separates their words. *)
Lemma words_sep a sp b :
  isspace sp = true -> words (a ++ sp :: b) = words a ++ words b.
Proof.
  intros Hsp. unfold words at 1 2. rewrite (words_from_sep a sp b Hsp).
  destruct (words_from a) as [w ws]. simpl. apply cons_word_app.
Qed.

Lemma words_join_lines parts :
  words (join [LF] parts) = flat_map words parts.
Proof.
  induction parts as [|p parts IH]; [reflexivity|].
  destruct parts as [|q parts].
  - simpl. now rewrite app_nil_r.
  - change (join [LF] (p :: q :: parts)) with (p ++ LF :: join [LF] (q :: parts)).
    rewrite words_sep by reflexivity. now rewrite IH.
Qed.

(** X5.  For a PDF whose pages the parser can read, the call returns the
    words of the first page, then those of the second, and so on, joined by
    single spaces: a page break separates words like any white space and
    never glues the last word of a page to the first word of the next. *)
Theorem pdf_pages_words
    (uploaded_file : UploadedFile) (w : world) (name : str) (pages : list str) :
  file_type uploaded_file = pdf_mime ->
  tmp_create = inr name ->
  tmp_write_error (getvalue uploaded_file) = None ->
  PdfReader_pages (Bytes (getvalue uploaded_file)) = inr pages ->
  fst (extract_text_from_file uploaded_file w)
  = Return (join [SPACE] (flat_map words pages)).
Proof.
  intros Ht Hc Hw Hp.
  rewrite extract_text_from_file_returns. unfold extracted_text, raw_text_of.
  rewrite Hc, Hw, Ht, str_eqb_refl, Hp.
  now rewrite clean_text_words, words_join_lines.
Qed.

(** X6.  The same holds for the paragraphs of a DOCX document. *)
Theorem docx_paragraphs_words
    (uploaded_file : UploadedFile) (w : world) (name : str)
    (paragraphs : list str) :
  file_type uploaded_file = docx_mime ->
  tmp_create = inr name ->
  tmp_write_error (getvalue uploaded_file) = None ->
  Document_paragraphs (Bytes (getvalue uploaded_file)) = inr paragraphs ->
  fst (extract_text_from_file uploaded_file w)
  = Return (join [SPACE] (flat_map words paragraphs)).
Proof.
  intros Ht Hc Hw Hp.
  rewrite extract_text_from_file_returns. unfold extracted_text, raw_text_of.
  rewrite Hc, Hw, Ht, (str_eqb_neq docx_mime pdf_mime) by discriminate.
  rewrite str_eqb_refl, Hp.
  now rewrite clean_text_words, words_join_lines.
Qed.
(** X19.  Once the upload has been written to the temporary file, no way
    out of the call leaves that file behind unnoticed: if the unlinking
    succeeds the file is gone, and if it fails the file is still there
    with the uploaded bytes and the last thing shown is the warning
    "Couldn't delete temp file: " with the exception's text. *)
Theorem written_temp_file_is_released_or_reported
    (uploaded_file : UploadedFile) (w : world) (name : str) :
  tmp_create = inr name ->
  tmp_write_error (getvalue uploaded_file) = None ->
  match os_unlink_error name with
  | None =>
      lookup_file name (files (snd (extract_text_from_file uploaded_file w)))
      = None
  | Some e =>
      lookup_file name (files (snd (extract_text_from_file uploaded_file w)))
      = Some (Bytes (getvalue uploaded_file))
      /\ exists before,
           screen (snd (extract_text_from_file uploaded_file w))
           = before ++ [StWarning (lit "Couldn't delete temp file: " ++ e)]
  end.
Proof.
  intros Hc Hw.
  rewrite extract_text_from_file_run, extract_try_run, Hc, Hw.
  destruct (raw_text_of uploaded_file) as [e | raw_text];
    unfold after_cleanup, shown, with_file; cbn [files screen snd];
    rewrite lookup_file_head;
    destruct (os_unlink_error name) as [e' |]; cbn [files screen snd].
  - split; [apply lookup_file_head | eexists; reflexivity].
  - rewrite remove_file_head. apply lookup_file_removed.
  - split; [apply lookup_file_head | eexists; reflexivity].
  - rewrite remove_file_head. apply lookup_file_removed.
Qed.
End CleanShape.

Lemma pdf_pages_words_witness :
  fst (@extract_text_from_file sample_unicode two_page_env
         (mkUpload pdf_mime (lit "%PDF-1.4")) empty_world)
  = Return (lit "Patient reports chest pain since Monday.").
Proof.
  apply (@pdf_pages_words sample_unicode two_page_env
           (mkUpload pdf_mime (lit "%PDF-1.4")) empty_world
           (lit "/tmp/tmpk3v9x1")
           [lit "Patient reports chest" ++ [LF]; lit "pain  since Monday." ++ [LF]]);
    reflexivity.
Defined.

Lemma docx_paragraphs_words_witness :
  fst (@extract_text_from_file sample_unicode two_page_env
         (mkUpload docx_mime (lit "PK")) empty_world)
  = Return (lit "Patient reports chest pain since Monday.").
Proof.
  apply (@docx_paragraphs_words sample_unicode two_page_env
           (mkUpload docx_mime (lit "PK")) empty_world
           (lit "/tmp/tmpk3v9x1")
           [lit "Patient reports chest"; lit ""; lit "pain since Monday."]);
    reflexivity.
Defined.

Lemma written_temp_file_is_released_or_reported_witness :
  lookup_file (lit "/tmp/tmpk3v9x1")
    (files (snd (@extract_text_from_file sample_unicode unlink_denied_env
                   (mkUpload text_plain (lit "mild headache")) empty_world)))
  = Some (Bytes (lit "mild headache"))
  /\ exists before,
       screen (snd (@extract_text_from_file sample_unicode unlink_denied_env
                      (mkUpload text_plain (lit "mild headache")) empty_world))
       = before ++ [StWarning (lit "Couldn't delete temp file: "
                               ++ lit "[Errno 13] Permission denied")].
Proof.
  apply (@written_temp_file_is_released_or_reported sample_unicode
           unlink_denied_env (mkUpload text_plain (lit "mild headache"))
           empty_world (lit "/tmp/tmpk3v9x1")); reflexivity.
Defined.

(** * Further properties of the scanner *)

Section ScannerMore.
Context {U : UnicodeData}.

(** X7.  A call of the scanner never raises, never stops the script by
    itself and never touches a file.  It either answers "no hazard" and
    shows nothing, or answers "hazard" and shows exactly two errors: the
    advisory of one rule of the table and the emergency notice. *)
Theorem scanner_shows_nothing_or_one_advisory (text : str) (w : world) :
  check_red_flags text w = (Return false, w)
  \/ exists pattern message,
       In (pattern, message) RED_FLAGS
       /\ check_red_flags text w = (Return true, flagged_world w message).
Proof.
  destruct text as [|c text]; [now left|].
  change (check_red_flags (c :: text) w)
    with (scan_flags RED_FLAGS (lower (c :: text)) w).
  destruct (scan_flags_cases RED_FLAGS (lower (c :: text)) w)
    as [(k & pk & mk & Hk & _ & _ & Hrun) | [_ Hrun]].
  - right. exists pk, mk. split; [|exact Hrun]. now apply nth_error_In in Hk.
  - now left.
Qed.

(** X8.  On ASCII text the letter case is irrelevant: two texts that
    differ only in the case of their letters get the same answer and the
    same messages. *)
Theorem scanner_ignores_ascii_case (t1 t2 : str) (w : world) :
  forallb is_ascii t1 = true ->
  forallb is_ascii t2 = true ->
  map ascii_lower t1 = map ascii_lower t2 ->
  check_red_flags t1 w = check_red_flags t2 w.
Proof.
  intros H1 H2 E.
  assert (El : lower t1 = lower t2) by now rewrite !lower_ascii.
  destruct t1 as [|a t1], t2 as [|b t2]; try discriminate; [reflexivity|].
  change (scan_flags RED_FLAGS (lower (a :: t1)) w
          = scan_flags RED_FLAGS (lower (b :: t2)) w).
  now rewrite El.
Qed.
End ScannerMore.

Lemma scanner_ignores_ascii_case_witness :
  @check_red_flags sample_unicode (lit "Severe BLEEDING from the Arm") empty_world
  = @check_red_flags sample_unicode (lit "severe bleeding from the arm") empty_world.
Proof.
  apply (@scanner_ignores_ascii_case sample_unicode); reflexivity.
Defined.

(** * Cleaning and scanning *)

Section CleanScan.
Context {U : UnicodeData}.

Lemma sub_space_runs_app x : forall b y,
  sub_space_runs b (x ++ y)
  = sub_space_runs b x ++ sub_space_runs (run_state b x) y.
Proof.
  induction x as [|c x IH]; intros b y; [reflexivity|].
  simpl. destruct (isspace c); rewrite IH.
  - now rewrite app_assoc.
  - reflexivity.
Qed.

Lemma run_state_app x : forall b y,
  run_state b (x ++ y) = run_state (run_state b x) y.
Proof. induction x as [|c x IH]; intros b y; [reflexivity | apply IH]. Qed.

Lemma sub_space_runs_word u : forall b,
  forallb (fun c => negb (isspace c)) u = true -> sub_space_runs b u = u.
Proof.
  induction u as [|c u IH]; intros b H; [reflexivity|].
  simpl in H. apply andb_true_iff in H as [Hc Hu].
  apply negb_true_iff in Hc. simpl. rewrite Hc. now rewrite IH.
Qed.

Lemma run_state_word u b : is_word u -> run_state b u = false.
Proof.
  intros [Hne Hu]. destruct (exists_last Hne) as (u' & c & ->).
  rewrite run_state_app. simpl.
  apply (word_no_space _ c Hu). apply in_or_app. right. now left.
Qed.

Lemma sub_space_runs_spaces s : forall b,
  forallb isspace s = true -> forallb isspace (sub_space_runs b s) = true.
Proof.
  induction s as [|c s IH]; intros b H; [reflexivity|].
  simpl in H. apply andb_true_iff in H as [Hc Hs].
  simpl. rewrite Hc. destruct b; simpl; now rewrite IH.
Qed.

(** Any way of cutting the collapsed text in two comes from a way of
    cutting the original text. *)
Lemma sub_space_runs_split s : forall b x y,
  sub_space_runs b s = x ++ y ->
  exists s1 s2,
    s = s1 ++ s2 /\ sub_space_runs b s1 = x
    /\ sub_space_runs (run_state b s1) s2 = y.
Proof.
  induction s as [|c s IH]; intros b x y E.
  - simpl in E. symmetry in E. apply app_eq_nil in E as [-> ->].
    now exists [], [].
  - destruct x as [|a x].
    { exists [], (c :: s). auto. }
    simpl in E. destruct (isspace c) eqn:Hc.
    + destruct b; simpl in E.
      * destruct (IH true (a :: x) y E) as (s1 & s2 & -> & H1 & H2).
        exists (c :: s1), s2. simpl. rewrite Hc. auto.
      * injection E as <- E.
        destruct (IH true x y E) as (s1 & s2 & -> & H1 & H2).
        exists (c :: s1), s2. simpl. rewrite Hc, H1. auto.
    + injection E as <- E.
      destruct (IH false x y E) as (s1 & s2 & -> & H1 & H2).
      exists (c :: s1), s2. simpl. rewrite Hc, H1. auto.
Qed.

Lemma sub_space_runs_false_word s : forall u,
  sub_space_runs false s = u ->
  forallb (fun c => negb (isspace c)) u = true -> s = u.
Proof.
  induction s as [|c s IH]; intros u E Hu; [exact E|].
  simpl in E. destruct (isspace c) eqn:Hc; subst u.
  - simpl in Hu. discriminate.
  - simpl in Hu. apply andb_true_iff in Hu as [_ Hu].
    f_equal. now apply IH.
Qed.

(** A piece of text that collapses to a word is that word, after white
    space only. *)
Lemma sub_space_runs_is_word s : forall b u,
  sub_space_runs b s = u -> is_word u ->
  exists sp, s = sp ++ u /\ forallb isspace sp = true.
Proof.
  induction s as [|c s IH]; intros b u E [Hne Hu].
  - simpl in E. congruence.
  - simpl in E. destruct (isspace c) eqn:Hc.
    + destruct b; simpl in E.
      * destruct (IH true u E (conj Hne Hu)) as (sp & -> & Hsp).
        exists (c :: sp). simpl. now rewrite Hc.
      * subst u. simpl in Hu. discriminate.
    + exists []. split; [|reflexivity]. simpl.
      destruct u as [|a u]; [congruence|]. injection E as <- E.
      simpl in Hu. apply andb_true_iff in Hu as [_ Hu].
      f_equal. now apply sub_space_runs_false_word.
Qed.

Lemma sub_space_runs_is_spaces s : forall b ws,
  sub_space_runs b s = ws -> forallb isspace ws = true ->
  forallb isspace s = true.
Proof.
  induction s as [|c s IH]; intros b ws E Hws; [reflexivity|].
  simpl in E. simpl. destruct (isspace c) eqn:Hc.
  - destruct b; simpl in E.
    + now apply (IH true ws).
    + subst ws. simpl in Hws. now apply (IH true _ eq_refl).
  - subst ws. simpl in Hws. now rewrite Hc in Hws.
Qed.

(** ASCII text: its white space is not made of word characters. *)
Lemma ascii_space_not_word c :
  is_ascii c = true -> isspace c = true -> isword c = false.
Proof.
  unfold isspace, isword. intros ->.
  unfold ascii_isspace, ascii_isword, in_range. intros H.
  repeat match goal with
         | |- context [?a <=? ?b] => destruct (N.leb_spec a b)
         | |- context [?a =? ?b] => destruct (N.eqb_spec a b)
         | H : context [?a <=? ?b] |- _ => destruct (N.leb_spec a b)
         | H : context [?a =? ?b] |- _ => destruct (N.eqb_spec a b)
         end; simpl in *; try reflexivity; try discriminate; lia.
Qed.

Lemma forallb_app_l {A} (f : A -> bool) a b :
  forallb f (a ++ b) = true -> forallb f a = true.
Proof. rewrite forallb_app. now intros [H _]%andb_true_iff. Qed.

Lemma forallb_app_r {A} (f : A -> bool) a b :
  forallb f (a ++ b) = true -> forallb f b = true.
Proof. rewrite forallb_app. now intros [_ H]%andb_true_iff. Qed.

Lemma last_error_snoc x c : last_error (x ++ [c]) = Some c.
Proof. unfold last_error. now rewrite last_after_app. Qed.

Lemma run_state_snoc b x c : run_state b (x ++ [c]) = isspace c.
Proof. now rewrite run_state_app. Qed.

(** Collapsing keeps the kind of the last character. *)
Lemma last_sub_space_runs s : forall b,
  forallb is_ascii s = true ->
  isword_at (last_error (sub_space_runs b s)) = isword_at (last_error s).
Proof.
  induction s as [|c x IH] using rev_ind; intros b Hs.
  - now destruct b.
  - pose proof (forallb_app_l _ _ _ Hs) as Hx.
    apply forallb_app_r in Hs. simpl in Hs. rewrite andb_true_r in Hs.
    rewrite sub_space_runs_app, last_error_snoc. simpl.
    destruct (isspace c) eqn:Hc.
    + rewrite (ascii_space_not_word c Hs Hc).
      destruct (run_state b x) eqn:Hr; simpl.
      * rewrite app_nil_r, IH by assumption.
        destruct x as [|d x'] using rev_ind; [reflexivity|].
        rewrite run_state_snoc in Hr. rewrite last_error_snoc. simpl.
        apply ascii_space_not_word; [|exact Hr].
        apply forallb_app_r in Hx. simpl in Hx. now rewrite andb_true_r in Hx.
      * now rewrite last_error_snoc.
    + now rewrite last_error_snoc.
Qed.

(** Outside a run, collapsing keeps the kind of the first character. *)
Lemma hd_sub_space_runs s :
  forallb is_ascii s = true ->
  isword_at (hd_error (sub_space_runs false s)) = isword_at (hd_error s).
Proof.
  destruct s as [|c s]; [reflexivity|]. simpl. intros H.
  apply andb_true_iff in H as [Hc _].
  destruct (isspace c) eqn:Hs; [|reflexivity].
  simpl. now rewrite (ascii_space_not_word c Hc Hs).
Qed.

Lemma sub_space_runs_ascii s : forall b,
  forallb is_ascii s = true -> forallb is_ascii (sub_space_runs b s) = true.
Proof.
  induction s as [|c s IH]; intros b H; [reflexivity|].
  simpl in H. apply andb_true_iff in H as [Hc Hs]. simpl.
  destruct (isspace c); [destruct b|]; simpl; rewrite ?Hc; now rewrite IH.
Qed.

(** [rstrip] only removes white space from the end. *)
Lemma rstrip_tail y :
  exists sp, y = rstrip y ++ sp /\ forallb isspace sp = true.
Proof.
  induction y as [|c y (sp & E & Hsp)]; [now exists []|].
  rewrite rstrip_cons. destruct (rstrip y) as [|d z] eqn:Er.
  - simpl in E. subst y. destruct (isspace c) eqn:Hc.
    + exists (c :: sp). simpl. now rewrite Hc.
    + now exists sp.
  - exists sp. split; [|exact Hsp]. simpl. now rewrite E at 1.
Qed.

Lemma rstrip_app_word x y :
  ends_with_space x = false -> rstrip (x ++ y) = x ++ rstrip y.
Proof.
  induction x as [|c x IH]; intros H; [reflexivity|].
  simpl app. rewrite rstrip_cons. destruct x as [|d x].
  - simpl. unfold ends_with_space in H. simpl in H. rewrite H.
    now destruct (rstrip y).
  - rewrite ends_with_space_cons2 in H. rewrite (IH H). reflexivity.
Qed.

Lemma hd_rstrip y :
  hd_error (rstrip y) = None \/ hd_error (rstrip y) = hd_error y.
Proof.
  destruct y as [|c y]; [now left|]. rewrite rstrip_cons.
  destruct (rstrip y); [destruct (isspace c)|]; simpl; auto.
Qed.

Lemma rstrip_ascii y :
  forallb is_ascii y = true -> forallb is_ascii (rstrip y) = true.
Proof.
  intros H. destruct (rstrip_tail y) as (sp & E & _).
  rewrite E in H. now apply forallb_app_l in H.
Qed.

Lemma is_word_not_space_at u rest :
  is_word u -> starts_with_space (u ++ rest) = false.
Proof. apply word_starts. Qed.

(** Collapsing the white-space runs keeps every whole phrase. *)
Lemma whole_phrase_collapsed w1 w2 t :
  is_word w1 -> is_word w2 -> forallb is_ascii t = true ->
  whole_phrase w1 w2 t -> whole_phrase w1 w2 (sub_space_runs true t).
Proof.
  intros W1 W2 Ht (pre & ws & post & -> & Hws & Hb & Ha).
  pose proof W1 as [_ N1]. pose proof W2 as [_ N2].
  rewrite !sub_space_runs_app.
  rewrite (sub_space_runs_word w1), (sub_space_runs_word w2) by assumption.
  rewrite (run_state_word w1 _ W1), (run_state_word w2 _ W2).
  exists (sub_space_runs true pre), (sub_space_runs false ws),
         (sub_space_runs false post).
  repeat split.
  - now apply sub_space_runs_spaces.
  - rewrite last_sub_space_runs; [exact Hb|]. now apply forallb_app_l in Ht.
  - rewrite hd_sub_space_runs; [exact Ha|].
    do 4 apply forallb_app_r in Ht. exact Ht.
Qed.

(** Conversely, a whole phrase of the collapsed text comes from a whole
    phrase of the text. *)
Lemma whole_phrase_uncollapsed w1 w2 t :
  is_word w1 -> is_word w2 -> forallb is_ascii t = true ->
  whole_phrase w1 w2 (sub_space_runs true t) -> whole_phrase w1 w2 t.
Proof.
  intros W1 W2 Ht (pre & ws & post & E & Hws & Hb & Ha).
  apply sub_space_runs_split in E as (s0 & r0 & -> & E0 & E).
  apply sub_space_runs_split in E as (s1 & r1 & -> & E1 & E).
  apply sub_space_runs_split in E as (s2 & r2 & -> & E2 & E).
  apply sub_space_runs_split in E as (s3 & s4 & -> & E3 & E4).
  destruct (sub_space_runs_is_word _ _ _ E1 W1) as (sp1 & -> & Hsp1).
  destruct (sub_space_runs_is_word _ _ _ E3 W2) as (sp3 & -> & Hsp3).
  pose proof (sub_space_runs_is_spaces _ _ _ E2 Hws) as Hs2.
  rewrite run_state_app, (run_state_word w2 _ W2) in E4.
  exists (s0 ++ sp1), (s2 ++ sp3), s4. repeat split.
  - now rewrite <- !app_assoc.
  - rewrite forallb_app, Hs2, Hsp3. reflexivity.
  - destruct sp1 as [|c sp1] using rev_ind.
    + rewrite app_nil_r. subst pre.
      rewrite last_sub_space_runs in Hb; [exact Hb|].
      now apply forallb_app_l in Ht.
    + rewrite app_assoc, last_error_snoc. simpl.
      apply ascii_space_not_word.
      * apply forallb_app_r in Ht. apply forallb_app_l in Ht.
        apply forallb_app_l in Ht. apply forallb_app_r in Ht.
        simpl in Ht. now rewrite andb_true_r in Ht.
      * apply forallb_app_r in Hsp1. simpl in Hsp1.
        now rewrite andb_true_r in Hsp1.
  - subst post. rewrite hd_sub_space_runs in Ha; [exact Ha|].
    do 4 apply forallb_app_r in Ht. exact Ht.
Qed.

Lemma whole_phrase_rstripped w1 w2 y :
  is_word w2 ->
  whole_phrase w1 w2 y -> whole_phrase w1 w2 (rstrip y).
Proof.
  intros W2 (pre & ws & post & -> & Hws & Hb & Ha).
  exists pre, ws, (rstrip post). repeat split; try assumption.
  - rewrite !app_assoc. rewrite rstrip_app_word.
    + reflexivity.
    + destruct W2 as [Hne Hu]. destruct (exists_last Hne) as (u' & c & ->).
      rewrite !app_assoc, ends_with_space_app. unfold ends_with_space. simpl.
      apply (word_no_space _ c Hu). apply in_or_app. right. now left.
  - destruct (hd_rstrip post) as [-> | ->]; [reflexivity | exact Ha].
Qed.

Lemma whole_phrase_unrstripped w1 w2 y :
  forallb is_ascii y = true ->
  whole_phrase w1 w2 (rstrip y) -> whole_phrase w1 w2 y.
Proof.
  intros Hy (pre & ws & post & E & Hws & Hb & Ha).
  destruct (rstrip_tail y) as (sp & Ey & Hsp).
  exists pre, ws, (post ++ sp). repeat split; try assumption.
  - rewrite Ey at 1. rewrite E. now rewrite <- !app_assoc.
  - destruct post as [|c post]; [|exact Ha].
    destruct sp as [|d sp]; [reflexivity|]. simpl.
    simpl in Hsp. apply andb_true_iff in Hsp as [Hd _].
    apply ascii_space_not_word; [|exact Hd].
    rewrite Ey in Hy. apply forallb_app_r in Hy. simpl in Hy.
    now apply andb_true_iff in Hy as [Hy _].
Qed.

Lemma clean_text_collapsed t :
  clean_text t = rstrip (sub_space_runs true t).
Proof.
  unfold clean_text, strip.
  now rewrite sub_space_runs_after_newlines, lstrip_sub_space_runs.
Qed.

(** Cleaning neither removes nor creates a whole phrase. *)
Lemma whole_phrase_cleaned w1 w2 t :
  is_word w1 -> is_word w2 -> forallb is_ascii t = true ->
  whole_phrase w1 w2 (clean_text t) <-> whole_phrase w1 w2 t.
Proof.
  intros W1 W2 Ht. rewrite clean_text_collapsed. split; intros H.
  - apply whole_phrase_uncollapsed; try assumption.
    apply whole_phrase_unrstripped; [|exact H].
    now apply sub_space_runs_ascii.
  - apply whole_phrase_rstripped; [assumption|].
    now apply whole_phrase_collapsed.
Qed.
End CleanScan.

Section CleanMap.
Context {U : UnicodeData}.
Variable f : codepoint -> codepoint.
Hypothesis f_space : forall c, isspace (f c) = isspace c.
Hypothesis f_LF : forall c, (f c =? LF) = (c =? LF).
Hypothesis f_SPACE : f SPACE = SPACE.

Lemma sub_single_newlines_map s : forall prev,
  sub_single_newlines (option_map f prev) (map f s)
  = map f (sub_single_newlines prev s).
Proof.
  induction s as [|c s IH]; intros prev; [reflexivity|].
  cbn [sub_single_newlines map]. rewrite <- (IH (Some c)). f_equal.
  rewrite f_LF.
  assert (Hp : match option_map f prev with Some p => p =? LF | None => false end
               = match prev with Some p => p =? LF | None => false end).
  { destruct prev; simpl; [apply f_LF | reflexivity]. }
  assert (Hn : match map f s with n :: _ => n =? LF | [] => false end
               = match s with n :: _ => n =? LF | [] => false end).
  { destruct s; simpl; [reflexivity | apply f_LF]. }
  rewrite Hp, Hn.
  match goal with |- (if ?b then _ else _) = _ => destruct b end;
    [now rewrite f_SPACE | reflexivity].
Qed.

Lemma sub_space_runs_map s : forall b,
  sub_space_runs b (map f s) = map f (sub_space_runs b s).
Proof.
  induction s as [|c s IH]; intros b; [reflexivity|].
  simpl. rewrite f_space. destruct (isspace c).
  - rewrite IH, map_app. destruct b; simpl; now rewrite ?f_SPACE.
  - simpl. now rewrite IH.
Qed.

Lemma lstrip_map s : lstrip (map f s) = map f (lstrip s).
Proof.
  induction s as [|c s IH]; [reflexivity|].
  simpl. rewrite f_space. now destruct (isspace c).
Qed.

Lemma clean_text_map s : clean_text (map f s) = map f (clean_text s).
Proof.
  unfold clean_text, strip, rstrip.
  pose proof (sub_single_newlines_map s None) as H0. simpl in H0.
  rewrite H0, sub_space_runs_map, lstrip_map.
  now rewrite <- map_rev, lstrip_map, map_rev.
Qed.
End CleanMap.

Section CleanVerdict.
Context {U : UnicodeData}.

Ltac compare_codes :=
  repeat match goal with
         | |- context [?a <=? ?b] => destruct (N.leb_spec a b)
         | |- context [?a <? ?b] => destruct (N.ltb_spec a b)
         | |- context [?a =? ?b] => destruct (N.eqb_spec a b)
         end; simpl; try reflexivity; try lia.

Lemma ascii_lower_space c : isspace (ascii_lower c) = isspace c.
Proof.
  unfold ascii_lower, in_range. destruct (N.leb_spec 65 c); simpl; [|reflexivity].
  destruct (N.leb_spec c 90); simpl; [|reflexivity].
  unfold isspace, is_ascii, ascii_isspace, in_range. compare_codes.
Qed.

Lemma ascii_lower_LF c : (ascii_lower c =? LF) = (c =? LF).
Proof.
  unfold ascii_lower, in_range, LF.
  destruct (N.leb_spec 65 c); simpl; [destruct (N.leb_spec c 90); simpl|];
    compare_codes.
Qed.

Lemma ascii_lower_ascii s :
  forallb is_ascii s = true -> forallb is_ascii (map ascii_lower s) = true.
Proof.
  induction s as [|c s IH]; [reflexivity|]. simpl.
  intros [Hc Hs]%andb_true_iff. rewrite (IH Hs), andb_true_r.
  revert Hc. unfold ascii_lower, is_ascii, in_range.
  destruct (N.leb_spec 65 c); simpl; [destruct (N.leb_spec c 90); simpl|];
    try (intros ->; reflexivity).
  intros _. compare_codes.
Qed.

Lemma clean_text_ascii s :
  forallb is_ascii s = true -> forallb is_ascii (clean_text s) = true.
Proof.
  intros H. rewrite clean_text_collapsed.
  now apply rstrip_ascii, sub_space_runs_ascii.
Qed.

(** On ASCII text, lower-casing and cleaning can be done in either order. *)
Lemma lower_clean_text raw :
  forallb is_ascii raw = true ->
  lower (clean_text raw) = clean_text (lower raw).
Proof.
  intros H. rewrite (lower_ascii raw H), (lower_ascii _ (clean_text_ascii raw H)).
  symmetry. apply clean_text_map; [apply ascii_lower_space | apply ascii_lower_LF
                                   | reflexivity].
Qed.

Lemma check_red_flags_as_scan text w :
  check_red_flags text w = scan_flags RED_FLAGS (lower text) w.
Proof. destruct text; reflexivity. Qed.

(** The loop sees a text only through the searches of its rules. *)
Lemma scan_flags_ext flags t t' w :
  (forall p m, In (p, m) flags -> re_search p t = re_search p t') ->
  scan_flags flags t w = scan_flags flags t' w.
Proof.
  induction flags as [|[p m] flags IH]; intros H; [reflexivity|].
  simpl. rewrite <- (H p m) by now left.
  destruct (re_search p t); [reflexivity|].
  apply IH. intros q n Hq. apply (H q n). now right.
Qed.

Lemma hazard_phrases_are_words w1 w2 :
  In (w1, w2) hazard_phrases -> is_word w1 /\ is_word w2.
Proof.
  unfold hazard_phrases. simpl.
  intros H. repeat destruct H as [H | H]; try contradiction;
    injection H as <- <-; split; (split; [discriminate | reflexivity]).
Qed.

(** Each rule finds its phrase in the cleaned text exactly when it finds
    it in the text. *)
Lemma rule_search_cleaned pattern message raw :
  In (pattern, message) RED_FLAGS ->
  forallb is_ascii raw = true ->
  re_search pattern (lower (clean_text raw)) = re_search pattern (lower raw).
Proof.
  intros Hin Hraw. apply In_nth_error in Hin as [n Hn].
  destruct (rule_has_phrase n pattern message Hn) as (w1 & w2 & Hp).
  destruct (hazard_phrases_are_words w1 w2 (nth_error_In _ _ Hp)) as [W1 W2].
  pose proof (rule_phrase n pattern message w1 w2 (lower (clean_text raw)) Hn Hp)
    as Hc.
  pose proof (rule_phrase n pattern message w1 w2 (lower raw) Hn Hp) as Hr.
  rewrite (lower_clean_text raw Hraw) in *.
  assert (Hl : forallb is_ascii (lower raw) = true).
  { rewrite (lower_ascii raw Hraw). now apply ascii_lower_ascii. }
  pose proof (whole_phrase_cleaned w1 w2 (lower raw) W1 W2 Hl) as Hw.
  destruct (re_search pattern (clean_text (lower raw))) eqn:E1;
    destruct (re_search pattern (lower raw)) eqn:E2; try reflexivity.
  - assert (X : false = true) by (apply Hr, Hw, Hc; reflexivity).
    discriminate X.
  - assert (X : false = true) by (apply Hc, Hw, Hr; reflexivity).
    discriminate X.
Qed.

(** X9.  On ASCII text, scanning the cleaned text gives exactly what
    scanning the raw text gives -- the same answer and the same messages:
    the cleaning that the extraction applies before the scan neither hides
    a hazard phrase nor creates one. *)
Theorem cleaning_keeps_verdict (raw_text : str) (w : world) :
  forallb is_ascii raw_text = true ->
  check_red_flags (clean_text raw_text) w = check_red_flags raw_text w.
Proof.
  intros Hraw. rewrite !check_red_flags_as_scan.
  apply scan_flags_ext. intros p m Hin.
  now apply (rule_search_cleaned p m).
Qed.
End CleanVerdict.

Lemma cleaning_keeps_verdict_witness :
  @check_red_flags sample_unicode
    (@clean_text sample_unicode
       ([LF] ++ lit "Patient has Chest" ++ [LF; LF; SPACE] ++ lit "PAIN  today" ++ [LF]))
    empty_world
  = @check_red_flags sample_unicode
      ([LF] ++ lit "Patient has Chest" ++ [LF; LF; SPACE] ++ lit "PAIN  today" ++ [LF])
      empty_world.
Proof.
  apply (@cleaning_keeps_verdict sample_unicode). reflexivity.
Defined.

(** * Further properties of the rendering and of the generation step *)

Section RenderingMore.
Context {U : UnicodeData} {Env : Environment}.

Lemma ascii_replace_fixed s :
  forallb is_ascii s = true -> ascii_replace s = s.
Proof.
  induction s as [|c s IH]; [reflexivity|]. simpl.
  intros [Hc Hs]%andb_true_iff. now rewrite Hc, IH.
Qed.

(** X10.  Symptoms and guidance made of ASCII characters reach the PDF
    verbatim: when a file name is given (it is not empty) and the file
    can be written, the document stored under the file name holds the two
    texts unchanged under their headings. *)
Theorem ascii_text_rendered_verbatim
    (symptoms guide filename : str) (w : world) :
  forallb is_ascii symptoms = true ->
  forallb is_ascii guide = true ->
  filename <> [] ->
  fpdf_output_error filename = None ->
  exists ops,
    lookup_file filename
      (files (snd (create_medical_pdf symptoms guide filename w)))
    = Some (PdfDocument ops)
    /\ filter (fun op => match op with MultiCell _ _ _ => true | _ => false end) ops
       = [ MultiCell 0 7 (lit "Symptoms:" ++ [LF] ++ symptoms);
           MultiCell 0 7 (lit "Guidance:" ++ [LF] ++ guide);
           MultiCell 0 5 disclaimer ].
Proof.
  intros Hs Hg Hname Ho. rewrite create_medical_pdf_run.
  destruct filename as [|c q]; [congruence|]. rewrite Ho.
  exists (summary_ops symptoms guide). split.
  - unfold with_file. cbn [snd files]. apply lookup_file_head.
  - unfold summary_ops. cbn [filter].
    rewrite (ascii_replace_fixed guide Hg).
    change (lit "Symptoms:" ++ [LF] ++ symptoms)
      with ((lit "Symptoms:" ++ [LF]) ++ symptoms) at 1.
    rewrite ascii_replace_app, (ascii_replace_fixed symptoms Hs).
    reflexivity.
Qed.

Lemma stream_chunks_run (selected_level : str) (chunks : list str) :
  forall (full_response : list str) (w : world),
    stream_chunks selected_level full_response chunks w
    = (Return (full_response ++ chunks),
       mkWorld (files w)
         (screen w
          ++ map (fun k =>
                    StMarkdown (guide_header selected_level
                                ++ join [] (full_response ++ firstn k chunks)))
                 (seq 1 (List.length chunks)))).
Proof.
  induction chunks as [|chunk chunks IH]; intros full_response w.
  - simpl. rewrite !app_nil_r. now destruct w.
  - cbn [stream_chunks]. unfold st_markdown. rewrite bind_emit, IH.
    unfold shown. cbn [files screen List.length].
    rewrite <- app_assoc. f_equal. f_equal. rewrite <- app_assoc. f_equal.
    cbn [seq map firstn app]. f_equal.
    rewrite <- (seq_shift (List.length chunks) 1), map_map.
    apply map_ext. intros k. cbn [firstn]. now rewrite <- app_assoc.
Qed.

(** X11.  The streaming loop redraws the placeholder once per fragment, the
    [k]-th time with the header followed by the first [k] fragments
    concatenated, touches no file, and returns the fragments received
    before together with all the new ones, in order of arrival. *)
Theorem stream_chunks_redraws
    (selected_level : str) (full_response chunks : list str) (w : world) :
  stream_chunks selected_level full_response chunks w
  = (Return (full_response ++ chunks),
     mkWorld (files w)
       (screen w
        ++ map (fun k =>
                  StMarkdown (guide_header selected_level
                              ++ join [] (full_response ++ firstn k chunks)))
               (seq 1 (List.length chunks)))).
Proof. apply stream_chunks_run. Qed.

(** [show_pdf_preview] never raises and never touches a file.  It shows
    the content stored under the path when that path is a non-empty name of
    an existing file, and shows nothing otherwise. *)
Lemma show_pdf_preview_run
    (pdf_path : option str) (w : world) :
  show_pdf_preview pdf_path w
  = match pdf_path with
    | Some (c :: p) =>
        match lookup_file (c :: p) (files w) with
        | Some f => (Return tt, shown w (StPdfPreview f))
        | None => (Return tt, w)
        end
    | _ => (Return tt, w)
    end.
Proof.
  unfold show_pdf_preview. destruct pdf_path as [[|c p]|]; try reflexivity.
  unfold bind, os_path_exists, read_file, emit, shown.
  destruct (lookup_file (c :: p) (files w)) eqn:E; [|reflexivity].
  now rewrite E.
Qed.
End RenderingMore.

Lemma ascii_text_rendered_verbatim_witness :
  exists ops,
    lookup_file medical_summary_pdf
      (files (snd (@create_medical_pdf sample_env
                     (lit "mild headache") (lit "- Drink water")
                     medical_summary_pdf empty_world)))
    = Some (PdfDocument ops)
    /\ filter (fun op => match op with MultiCell _ _ _ => true | _ => false end) ops
       = [ MultiCell 0 7 (lit "Symptoms:" ++ [LF] ++ lit "mild headache");
           MultiCell 0 7 (lit "Guidance:" ++ [LF] ++ lit "- Drink water");
           MultiCell 0 5 disclaimer ].
Proof.
  apply (@ascii_text_rendered_verbatim sample_env);
    [reflexivity | reflexivity | discriminate | reflexivity].
Defined.

Section GenerationMore.
Context {U : UnicodeData} {Env : Environment}.

Lemma medical_summary_pdf_cons : exists c q, medical_summary_pdf = c :: q.
Proof. eexists _, _. reflexivity. Qed.

Lemma show_pdf_preview_found c p f w :
  lookup_file (c :: p) (files w) = Some f ->
  show_pdf_preview (Some (c :: p)) w = (Return tt, shown w (StPdfPreview f)).
Proof. intros H. now rewrite show_pdf_preview_run, H. Qed.

Lemma read_file_found p f w :
  lookup_file p (files w) = Some f -> read_file p w = (Return f, w).
Proof. unfold read_file. now intros ->. Qed.

(** X12.  When the generator streams its fragments to the end and the PDF
    can be written, the generation step returns normally, leaves under
    "medical_summary.pdf" the document rendered from the symptoms and from
    the concatenation of all fragments (replacing whatever was stored
    there), and shows, in this order: one redraw per fragment, a rule, the
    preview heading, the preview and the download button -- preview and
    download both carrying exactly that document. *)
Theorem generation_shows_the_rendered_summary
    (specialty symptoms level : str) (chunks : list str) (w : world) :
  generate_stream (prompt specialty symptoms level) = inr (chunks, None) ->
  fpdf_output_error medical_summary_pdf = None ->
  let doc := PdfDocument (summary_ops symptoms (join [] chunks)) in
  generate_guide specialty symptoms level w
  = (Return tt,
     mkWorld ((medical_summary_pdf, doc) :: remove_file medical_summary_pdf (files w))
       (screen w
        ++ GenerateContent (lit "gemini-1.5-flash") (prompt specialty symptoms level)
        :: redraws level chunks ++ summary_shown doc)).
Proof.
  intros Hg Ho doc. unfold generate_guide.
  rewrite bind_emit, Hg. cbn [of_sum]. rewrite bind_ret. cbn [fst snd].
  rewrite (bind_eval _ _ _ _ _ (stream_chunks_run level chunks [] _)).
  cbn [raise_if]. rewrite bind_ret. cbn [app].
  erewrite bind_eval.
  2:{ rewrite create_medical_pdf_summary, Ho. reflexivity. }
  unfold summary_shown, redraws. fold doc.
  destruct medical_summary_pdf_cons as (c & q & Em). rewrite Em.
  unfold st_markdown, st_subheader. rewrite !bind_emit.
  erewrite bind_eval.
  2:{ apply show_pdf_preview_found. unfold shown, with_file. cbn [files].
      apply lookup_file_head. }
  erewrite bind_eval.
  2:{ apply read_file_found. unfold shown, with_file. cbn [files].
      apply lookup_file_head. }
  unfold emit, shown, with_file. cbn [files screen].
  f_equal. f_equal. now rewrite <- !app_assoc.
Qed.

(** X13.  When the stream ends normally but [pdf.output] raises, the
    generation step still returns normally: it shows the redraws and then
    "PDF generation failed: " with the exception's text, and neither the
    preview nor the download button. *)
Theorem generation_survives_pdf_failure
    (specialty symptoms level : str) (chunks : list str) (e : exn) (w : world) :
  generate_stream (prompt specialty symptoms level) = inr (chunks, None) ->
  fpdf_output_error medical_summary_pdf = Some e ->
  fst (generate_guide specialty symptoms level w) = Return tt
  /\ screen (snd (generate_guide specialty symptoms level w))
     = screen w
       ++ GenerateContent (lit "gemini-1.5-flash") (prompt specialty symptoms level)
       :: redraws level chunks
       ++ [StError (lit "PDF generation failed: " ++ e)].
Proof.
  intros Hg Ho. unfold generate_guide.
  rewrite bind_emit, Hg. cbn [of_sum]. rewrite bind_ret. cbn [fst snd].
  rewrite (bind_eval _ _ _ _ _ (stream_chunks_run level chunks [] _)).
  cbn [raise_if]. rewrite bind_ret. cbn [app].
  erewrite bind_eval.
  2:{ rewrite create_medical_pdf_summary, Ho. reflexivity. }
  unfold redraws, ret, shown. cbn [files screen fst snd].
  split; [reflexivity|]. now rewrite <- !app_assoc.
Qed.

Lemma generate_guide_failure_run specialty symptoms level chunks e w :
  stream_failure (generate_stream (prompt specialty symptoms level))
  = Some (chunks, e) ->
  generate_guide specialty symptoms level w
  = (Raise e,
     mkWorld (files w)
       (screen w
        ++ GenerateContent (lit "gemini-1.5-flash") (prompt specialty symptoms level)
        :: redraws level chunks)).
Proof.
  intros Hf. unfold generate_guide. rewrite bind_emit.
  destruct (generate_stream (prompt specialty symptoms level))
    as [e' | [chunks' [e' |]]]; simpl in Hf; try discriminate;
    injection Hf as <- <-.
  - unfold shown. reflexivity.
  - cbn [of_sum]. rewrite bind_ret. cbn [fst snd].
    rewrite (bind_eval _ _ _ _ _ (stream_chunks_run level chunks' [] _)).
    unfold redraws, shown. cbn [raise_if files screen app].
    unfold bind, raise. f_equal. f_equal. now rewrite <- !app_assoc.
Qed.

End GenerationMore.

Lemma generation_shows_the_rendered_summary_witness :
  let doc :=
    PdfDocument (summary_ops (lit "mild headache")
                             (join [] [lit "Possible "; lit "causes"])) in
  @generate_guide sample_env (lit "Cardiologist") (lit "mild headache")
    (lit "7th grade")
    (mkWorld [(medical_summary_pdf, PdfDocument [AddPage])] [])
  = (Return tt,
     mkWorld
       ((medical_summary_pdf, doc)
        :: remove_file medical_summary_pdf [(medical_summary_pdf, PdfDocument [AddPage])])
       (GenerateContent (lit "gemini-1.5-flash")
          (prompt (lit "Cardiologist") (lit "mild headache") (lit "7th grade"))
        :: redraws (lit "7th grade") [lit "Possible "; lit "causes"]
        ++ summary_shown doc)).
Proof.
  apply (@generation_shows_the_rendered_summary sample_env
           (lit "Cardiologist") (lit "mild headache") (lit "7th grade")
           [lit "Possible "; lit "causes"]
           (mkWorld [(medical_summary_pdf, PdfDocument [AddPage])] []));
    reflexivity.
Defined.

Lemma generation_survives_pdf_failure_witness :
  let w := mkWorld [(medical_summary_pdf, PdfDocument [AddPage])] [] in
  fst (@generate_guide read_only_env (lit "Cardiologist") (lit "mild headache")
         (lit "7th grade") w)
  = Return tt
  /\ screen (snd (@generate_guide read_only_env (lit "Cardiologist")
                    (lit "mild headache") (lit "7th grade") w))
     = screen w
       ++ GenerateContent (lit "gemini-1.5-flash")
            (prompt (lit "Cardiologist") (lit "mild headache") (lit "7th grade"))
       :: redraws (lit "7th grade") [lit "Possible "; lit "causes"]
       ++ [StError (lit "PDF generation failed: "
                    ++ lit "[Errno 30] Read-only file system")].
Proof.
  apply (@generation_survives_pdf_failure read_only_env
           (lit "Cardiologist") (lit "mild headache") (lit "7th grade")
           [lit "Possible "; lit "causes"]
           (lit "[Errno 30] Read-only file system")
           (mkWorld [(medical_summary_pdf, PdfDocument [AddPage])] []));
    reflexivity.
Defined.

(** * Whole runs of the script *)

Section RunFacts.
Context {U : UnicodeData} {Env : Environment}.

Lemma main_stages i w :
  main i w
  = (selected_level <- subscript grade_levels (reading_level i) ;;
     symptoms <- settle_symptoms i ;;
     on_button i symptoms selected_level ;;
     st_markdown (lit "---") ;;
     st_caption (lit "Built with " ++ [10084; 65039] ++ lit " for patient education"))
      (greeted w).
Proof. reflexivity. Qed.

Lemma hazard_detected_nil : hazard_detected [] = false.
Proof. reflexivity. Qed.

(** The scanner's run in any world, read off [hazard_detected]. *)
Lemma check_by_hazard_detected text w :
  (hazard_detected text = false /\ check_red_flags text w = (Return false, w))
  \/ (hazard_detected text = true
      /\ exists message,
           check_red_flags text w = (Return true, flagged_world w message)).
Proof.
  unfold hazard_detected.
  destruct text as [|c text]; [left; split; reflexivity|].
  destruct (scan_flags_cases RED_FLAGS (lower (c :: text)) empty_world)
    as [(k & pk & mk & _ & _ & _ & Hrun) | [_ Hrun]];
    change (scan_flags RED_FLAGS (lower (c :: text)) empty_world)
      with (check_red_flags (c :: text) empty_world) in Hrun.
  - right. rewrite Hrun. split; [reflexivity|].
    apply (check_red_flags_flagged _ empty_world). now rewrite Hrun.
  - left. rewrite Hrun. split; [reflexivity|].
    apply (check_red_flags_unflagged _ empty_world). now rewrite Hrun.
Qed.

(** Scanning a text and stopping on a hazard. *)
Lemma scan_or_stop text w :
  exists w1,
    prompts_sent w1 = prompts_sent w /\ files w1 = files w
    /\ (flagged <- check_red_flags text ;;
        (if flagged : bool then st_stop else ret tt) ;;
        ret text) w
       = (if hazard_detected text then ScriptStop else Return text, w1).
Proof.
  destruct (check_by_hazard_detected text w) as [[Hd Hrun] | [Hd [m Hrun]]];
    rewrite Hd; unfold bind at 1; rewrite Hrun.
  - exists w. auto.
  - exists (flagged_world w m). split; [apply prompts_sent_flagged|].
    split; reflexivity.
Qed.

Lemma settle_symptoms_run i w :
  exists w1,
    prompts_sent w1 = prompts_sent w
    /\ settle_symptoms i w
       = (if hazard_detected (scanned_text i) then ScriptStop
          else Return (symptoms_used i), w1).
Proof.
  unfold settle_symptoms, scanned_text, symptoms_used.
  destruct (uploaded_file i) as [file|].
  - pose proof (extract_text_from_file_returns file w) as Hx.
    pose proof (quiet_extract_text_from_file file w) as Hq.
    destruct (extract_text_from_file file w) as [r w0] eqn:Hrun.
    simpl in Hx, Hq. subst r.
    rewrite (bind_eval _ _ _ _ _ Hrun).
    destruct (extracted_text file) as [|c t] eqn:Et.
    + exists w0. rewrite hazard_detected_nil. auto.
    + unfold st_success, st_text_area. rewrite !bind_emit.
      destruct (scan_or_stop (c :: t)
                  (shown (shown w0 (StSuccess ([128196] ++ lit " Extracted Text Preview:")))
                         (StTextArea (lit "Extracted Content") (c :: t))))
        as (w1 & Hp & _ & Hs).
      exists w1. split; [|exact Hs].
      rewrite Hp, !prompts_sent_shown, !app_nil_r. exact Hq.
  - destruct (symptoms_area i) as [|c t] eqn:Es.
    + exists w. rewrite hazard_detected_nil. auto.
    + destruct (scan_or_stop (c :: t) w) as (w1 & Hp & _ & Hs).
      exists w1. auto.
Qed.

Lemma calm_ret {A} (a : A) : calm (ret a).
Proof. intros w. discriminate. Qed.

Lemma calm_raise {A} e : calm (@raise world A e).
Proof. intros w. discriminate. Qed.

Lemma calm_emit e : calm (emit e).
Proof. intros w. discriminate. Qed.

Lemma calm_bind {A B} (m : E A) (k : A -> E B) :
  calm m -> (forall a, calm (k a)) -> calm (bind m k).
Proof.
  intros Hm Hk w. unfold bind. specialize (Hm w).
  destruct (m w) as [[a | e |] w']; simpl in *;
    [apply Hk | discriminate | congruence].
Qed.

Lemma calm_of_sum {A} (r : exn + A) : calm (of_sum r).
Proof. destruct r; [apply calm_raise | apply calm_ret]. Qed.

Lemma calm_raise_if r : calm (@raise_if world r).
Proof. destruct r; [apply calm_raise | apply calm_ret]. Qed.

Lemma calm_read_file p : calm (read_file p).
Proof.
  intros w. unfold read_file. destruct (lookup_file p (files w)); discriminate.
Qed.

Lemma calm_generate_guide specialty symptoms level :
  calm (generate_guide specialty symptoms level).
Proof.
  unfold generate_guide.
  apply calm_bind; [apply calm_emit | intros _].
  apply calm_bind; [apply calm_of_sum | intros response].
  apply calm_bind; [intros w; now rewrite stream_chunks_run | intros full].
  apply calm_bind; [apply calm_raise_if | intros _].
  apply calm_bind.
  { intros w. rewrite create_medical_pdf_summary.
    destruct (fpdf_output_error medical_summary_pdf); discriminate. }
  intros [[|c p]|]; try apply calm_ret.
  unfold st_markdown, st_subheader.
  apply calm_bind; [apply calm_emit | intros _].
  apply calm_bind; [apply calm_emit | intros _].
  apply calm_bind.
  { intros w. rewrite show_pdf_preview_run.
    destruct (lookup_file (c :: p) (files w)); discriminate. }
  intros _. apply calm_bind; [apply calm_read_file | intros f; apply calm_emit].
Qed.

(** The button step always returns normally. *)
Lemma on_button_returns i symptoms level w :
  fst (on_button i symptoms level w) = Return tt.
Proof.
  unfold on_button. destruct (generate_clicked i); [|reflexivity].
  destruct symptoms as [|c s]; [reflexivity|].
  unfold st_spinner. rewrite bind_emit. unfold try_except.
  pose proof (calm_generate_guide (doctor_specialty i) (c :: s) level
                (shown w (StSpinner (lit "Generating your personalized guide..."))))
    as Hcalm.
  destruct (generate_guide (doctor_specialty i) (c :: s) level _)
    as [[[] | e |] w']; simpl in *; [reflexivity | reflexivity | congruence].
Qed.

Lemma on_button_prompts_all i symptoms level w :
  prompts_sent (snd (on_button i symptoms level w))
  = prompts_sent w
    ++ (if generate_clicked i
        then match symptoms with
             | [] => []
             | _ => [prompt (doctor_specialty i) symptoms level]
             end
        else []).
Proof.
  destruct (generate_clicked i) eqn:Hc.
  - destruct symptoms as [|c s].
    + unfold on_button. rewrite Hc. unfold st_warning.
      change (snd (emit ?e w)) with (shown w e).
      now rewrite prompts_sent_shown.
    + apply on_button_prompts; [exact Hc | discriminate].
  - unfold on_button. rewrite Hc. simpl. now rewrite app_nil_r.
Qed.
End RunFacts.

Section RunClaims.
Context {U : UnicodeData} {Env : Environment}.

(** X14.  How a run of the script ends is decided by two things only.  A
    reading level outside the table raises (the slider never yields one);
    otherwise the run stops exactly when the scanner flags the text the
    script scans -- the extracted text if there is an upload, the typed
    text if there is none -- and in every other case it returns normally:
    no failure of the extraction, of the generator or of the PDF writer
    escapes from [main]. *)
Theorem run_outcome (i : inputs) (w : world) :
  match dict_get grade_levels (reading_level i) with
  | None => exists e, fst (main i w) = Raise e
  | Some _ =>
      fst (main i w)
      = if hazard_detected (scanned_text i) then ScriptStop else Return tt
  end.
Proof.
  rewrite main_stages.
  destruct (dict_get grade_levels (reading_level i)) as [level|] eqn:El.
  - rewrite (bind_eval _ _ _ _ _ (subscript_found _ _ _ El)).
    destruct (settle_symptoms_run i (greeted w)) as (w1 & _ & Hs).
    destruct (hazard_detected (scanned_text i)).
    + now rewrite (bind_stop _ _ _ _ Hs).
    + rewrite (bind_eval _ _ _ _ _ Hs).
      pose proof (on_button_returns i (symptoms_used i) level w1) as Hb.
      destruct (on_button i (symptoms_used i) level w1) as [r w2] eqn:Hrun.
      simpl in Hb. subst r. now rewrite (bind_eval _ _ _ _ _ Hrun).
  - eexists. unfold bind at 1, subscript. rewrite El. reflexivity.
Qed.

(** X15.  What reaches the generator in a run: nothing when the reading
    level is outside the table, when the scanned text is flagged, when the
    button was not clicked or when [symptoms] is empty; otherwise exactly
    one prompt, built from the chosen specialty, the level's label and
    [symptoms], which is the extracted text when the upload yields any and
    the typed text otherwise. *)
Theorem run_prompts (i : inputs) (w : world) :
  prompts_sent (snd (main i w))
  = prompts_sent w
    ++ match dict_get grade_levels (reading_level i) with
       | None => []
       | Some selected_level =>
           if hazard_detected (scanned_text i) then []
           else if generate_clicked i then
                  match symptoms_used i with
                  | [] => []
                  | symptoms =>
                      [prompt (doctor_specialty i) symptoms selected_level]
                  end
                else []
       end.
Proof.
  rewrite main_stages.
  destruct (dict_get grade_levels (reading_level i)) as [level|] eqn:El.
  - rewrite (bind_eval _ _ _ _ _ (subscript_found _ _ _ El)).
    destruct (settle_symptoms_run i (greeted w)) as (w1 & Hp & Hs).
    rewrite prompts_sent_greeted in Hp.
    destruct (hazard_detected (scanned_text i)).
    + rewrite (bind_stop _ _ _ _ Hs). simpl. now rewrite Hp, app_nil_r.
    + rewrite (bind_eval _ _ _ _ _ Hs).
      rewrite prompts_bind_quiet by apply quiet_footer.
      rewrite on_button_prompts_all, Hp.
      destruct (generate_clicked i); [|reflexivity].
      now destruct (symptoms_used i).
  - unfold bind at 1, subscript. rewrite El. simpl.
    now rewrite prompts_sent_greeted, app_nil_r.
Qed.

(** X16.  Typed, unflagged symptoms and a click on the button, with a
    generator that fails -- at the call, or after some fragments: the run
    returns normally, having shown the fragments received so far, then
    "Generation failed: " with the exception's text and the footer; no
    file is written and neither preview nor download button appears. *)
Theorem generation_failure_is_reported
    (i : inputs) (w : world) (selected_level : str)
    (chunks : list str) (e : exn) :
  dict_get grade_levels (reading_level i) = Some selected_level ->
  uploaded_file i = None ->
  symptoms_area i <> [] ->
  hazard_detected (symptoms_area i) = false ->
  generate_clicked i = true ->
  stream_failure
    (generate_stream (prompt (doctor_specialty i) (symptoms_area i) selected_level))
  = Some (chunks, e) ->
  main i w
  = (Return tt,
     mkWorld (files w)
       (screen (greeted w)
        ++ StSpinner (lit "Generating your personalized guide...")
        :: GenerateContent (lit "gemini-1.5-flash")
             (prompt (doctor_specialty i) (symptoms_area i) selected_level)
        :: redraws selected_level chunks
        ++ StError (lit "Generation failed: " ++ e) :: footer)).
Proof.
  intros El Hu Hne Hd Hc Hf. rewrite main_stages.
  rewrite (bind_eval _ _ _ _ _ (subscript_found _ _ _ El)).
  unfold settle_symptoms. rewrite Hu.
  destruct (symptoms_area i) as [|c s] eqn:Es; [congruence|].
  erewrite bind_eval.
  2:{ destruct (check_by_hazard_detected (c :: s) (greeted w))
        as [[_ Hrun] | [Hd' _]]; [|congruence].
      unfold bind at 1. rewrite Hrun. reflexivity. }
  unfold on_button. rewrite Hc. unfold st_spinner.
  erewrite bind_eval.
  2:{ rewrite bind_emit. unfold try_except.
      rewrite (generate_guide_failure_run _ _ _ chunks e _ Hf).
      unfold st_error, emit. reflexivity. }
  unfold st_markdown, st_caption, footer, emit, bind, shown, greeted.
  cbn [files screen]. f_equal. f_equal.
  rewrite <- !app_assoc. reflexivity.
Qed.
End RunClaims.

Lemma generation_failure_is_reported_witness :
  let i := mkInputs 2 (lit "Neurologist") None (lit "numb fingers") true in
  @main sample_unicode broken_stream_env i empty_world
  = (Return tt,
     mkWorld []
       (screen (greeted empty_world)
        ++ StSpinner (lit "Generating your personalized guide...")
        :: GenerateContent (lit "gemini-1.5-flash")
             (prompt (lit "Neurologist") (lit "numb fingers") (lit "7th grade"))
        :: redraws (lit "7th grade") [lit "Possible "]
        ++ StError (lit "Generation failed: " ++ lit "429 quota exceeded")
        :: footer)).
Proof.
  apply (@generation_failure_is_reported sample_unicode broken_stream_env
           (mkInputs 2 (lit "Neurologist") None (lit "numb fingers") true)
           empty_world (lit "7th grade") [lit "Possible "]
           (lit "429 quota exceeded")).
  - reflexivity.
  - reflexivity.
  - discriminate.
  - reflexivity.
  - reflexivity.
  - reflexivity.
Defined.

(** * The start-up block *)

Section Startup.

Lemma lstrip_chars_app chars a b :
  lstrip_chars chars (a ++ b)
  = match lstrip_chars chars a with
    | [] => lstrip_chars chars b
    | y => y ++ b
    end.
Proof.
  induction a as [|c a IH]; [reflexivity|].
  simpl. destruct (in_chars chars c); [exact IH | reflexivity].
Qed.

Lemma lstrip_chars_all chars q :
  forallb (in_chars chars) q = true -> lstrip_chars chars q = [].
Proof.
  induction q as [|c q IH]; [reflexivity|]. simpl.
  intros [Hc Hq]%andb_true_iff. rewrite Hc. now apply IH.
Qed.

Lemma lstrip_chars_twice chars s :
  lstrip_chars chars (lstrip_chars chars s) = lstrip_chars chars s.
Proof.
  induction s as [|c s IH]; [reflexivity|]. simpl.
  destruct (in_chars chars c) eqn:Hc; [exact IH|]. simpl. now rewrite Hc.
Qed.

(** Stripping from the left does not change what stripping from the right
    of the reversed text leaves, once it leaves anything. *)
Lemma lstrip_chars_rev_stable chars s :
  lstrip_chars chars (rev (lstrip_chars chars (rev (lstrip_chars chars s))))
  = rev (lstrip_chars chars (rev (lstrip_chars chars s))).
Proof.
  set (a := lstrip_chars chars s).
  assert (Ha : lstrip_chars chars a = a) by apply lstrip_chars_twice.
  clearbody a. clear s.
  induction a as [|c a IH] using rev_ind; [reflexivity|].
  rewrite rev_app_distr. simpl.
  destruct (in_chars chars c) eqn:Hc.
  - rewrite lstrip_chars_app in Ha.
    destruct (lstrip_chars chars a) as [|d y] eqn:Ey.
    + simpl in Ha. rewrite Hc in Ha. destruct a; discriminate.
    + apply IH. apply app_inv_tail in Ha. exact Ha.
  - simpl. rewrite rev_involutive. exact Ha.
Qed.

Lemma strip_chars_twice chars s :
  strip_chars chars (strip_chars chars s) = strip_chars chars s.
Proof.
  unfold strip_chars. rewrite lstrip_chars_rev_stable, rev_involutive.
  apply lstrip_chars_rev_stable.
Qed.

Lemma strip_chars_wrapped chars q1 q2 s :
  forallb (in_chars chars) q1 = true ->
  forallb (in_chars chars) q2 = true ->
  strip_chars chars (q1 ++ s ++ q2) = strip_chars chars s.
Proof.
  intros H1 H2. unfold strip_chars.
  rewrite lstrip_chars_app, (lstrip_chars_all chars q1 H1).
  rewrite lstrip_chars_app.
  destruct (lstrip_chars chars s) as [|d y] eqn:Ey.
  - now rewrite (lstrip_chars_all chars q2 H2).
  - rewrite rev_app_distr, lstrip_chars_app.
    rewrite (lstrip_chars_all chars (rev q2)); [reflexivity|].
    rewrite forallb_forall in *. intros c Hc. apply H2. now apply in_rev.
Qed.

Lemma secure_configuration_run secret cfg w :
  secure_configuration secret cfg w
  = match secret with
    | inl e => (ScriptStop, shown w (StError (lit "Key Error: " ++ e)))
    | inr raw =>
        let api_key := strip_chars QUOTES raw in
        if startswith api_key (lit "AI") then
          match cfg api_key with
          | None => (Return api_key, w)
          | Some e => (ScriptStop, shown w (StError (lit "Key Error: " ++ e)))
          end
        else (ScriptStop, shown w (StError wrong_key_format))
    end.
Proof.
  unfold secure_configuration, try_except, bind, of_sum, raise_if, st_error,
    st_stop, emit, ret, raise, shown.
  destruct secret as [e | raw]; [reflexivity|]. cbv zeta.
  destruct (startswith (strip_chars QUOTES raw) (lit "AI")); [|reflexivity].
  simpl. destruct (cfg (strip_chars QUOTES raw)); reflexivity.
Qed.

(** X17.  The start-up block never raises.  Either it configures the
    generator without showing anything, and then the key it passes is the
    secret stripped of quote characters at both ends, starts with "AI" and
    has no quote left to strip; or it shows exactly one error and stops the
    script -- also when the format check fails inside the [try], since
    [st.stop()] is not caught by [except Exception]. *)
Theorem configuration_configures_or_stops
    (secret : exn + str) (genai_configure_error : str -> option exn)
    (w : world) :
  (exists raw,
      secret = inr raw
      /\ secure_configuration secret genai_configure_error w
         = (Return (strip_chars QUOTES raw), w)
      /\ startswith (strip_chars QUOTES raw) (lit "AI") = true
      /\ strip_chars QUOTES (strip_chars QUOTES raw) = strip_chars QUOTES raw)
  \/ (exists message,
        secure_configuration secret genai_configure_error w
        = (ScriptStop, shown w (StError message))).
Proof.
  rewrite secure_configuration_run.
  destruct secret as [e | raw]; [right; eexists; reflexivity|]. cbv zeta.
  destruct (startswith (strip_chars QUOTES raw) (lit "AI")) eqn:Hs;
    [|right; eexists; reflexivity].
  destruct (genai_configure_error (strip_chars QUOTES raw));
    [right; eexists; reflexivity|].
  left. exists raw. repeat split; try assumption. apply strip_chars_twice.
Qed.

(** X18.  Wrapping the secret in quote characters -- single or double, any
    number, on either side -- changes nothing: the block behaves exactly as
    with the bare secret. *)
Theorem quoted_secret_is_the_bare_secret
    (q1 q2 key : str) (genai_configure_error : str -> option exn) (w : world) :
  forallb (in_chars QUOTES) q1 = true ->
  forallb (in_chars QUOTES) q2 = true ->
  secure_configuration (inr (q1 ++ key ++ q2)) genai_configure_error w
  = secure_configuration (inr key) genai_configure_error w.
Proof.
  intros H1 H2. rewrite !secure_configuration_run. cbv zeta.
  now rewrite (strip_chars_wrapped QUOTES q1 q2 key H1 H2).
Qed.
End Startup.

Lemma quoted_secret_is_the_bare_secret_witness :
  secure_configuration (inr ([34] ++ lit "AIzaSyExample" ++ [39; 34]))
    (fun _ => None) empty_world
  = secure_configuration (inr (lit "AIzaSyExample")) (fun _ => None) empty_world.
Proof.
  apply (quoted_secret_is_the_bare_secret [34] [39; 34] (lit "AIzaSyExample"));
    reflexivity.
Defined.
